(** * Geospatial quiz: a shallow embedding of [script.js]

    The script keeps its session in four global variables and writes to six
    page elements.  Both are collected in one [State] record below, together
    with the source of randomness behind [Math.random]; every function of the
    script becomes a computation in a small state monad [Js] over that record.
    Arrays are lists read with stdpp's lookup and written with its insert;
    texts are strings compared character by character, as [===] compares
    them; the score and the index are natural numbers. *)

From Stdlib Require Import Decimal DecimalString.
From stdpp Require Import base list strings.

(** ** Data as the script has it *)

(** One entry of [questions.json]. *)
Record QuestionRecord := mkQuestion {
  question : string;
  options : list string;
  answer : string
}.

Definition QUIZ_LENGTH : nat := 10.

Definition correctMessages : list string :=
  [ "Affirmative!";
    "Perfect resolution!";
    "Well done!";
    "You've got the satellite view.";
    "Mission success!" ].

Definition incorrectMessages : list string :=
  [ "Missed the mark.";
    "Negative. Recalibrate your coordinates.";
    "That's not the right spectral band.";
    "Try again, surveyor.";
    "Nah, that ain't it..." ].

(** ** The page *)

(** A [classList] is an ordered set of tokens: [add] appends the tokens that
    are not there yet, [remove] deletes every occurrence. *)
Definition ClassList := list string.

Definition classList_add (tokens : list string) (cl : ClassList) : ClassList :=
  foldl (fun acc t => if decide (t ∈ acc) then acc else acc ++ [t]) cl tokens.

Definition classList_remove (tokens : list string) (cl : ClassList) : ClassList :=
  filter (fun t => t ∉ tokens) cl.

(** An option button made by [loadQuestion].  Its [onclick] closure captures
    the option text and the current question's answer; both are kept with the
    button. *)
Record Button := mkButton {
  btnText : string;
  btnClasses : ClassList;
  btnDisabled : bool;
  onclickOption : string;
  onclickAnswer : string
}.

(** The [#result-message] element. *)
Record MessageBox := mkMessageBox {
  msgText : string;
  msgClasses : ClassList
}.

Record Page := mkPage {
  scoreDisplay : string;
  questionText : string;
  optionsContainer : list Button;
  nextButton : ClassList;
  restartButton : ClassList;
  resultMessage : MessageBox
}.

(** ** Randomness

    [Math.random] is an endless supply of draws; [cursor] counts how many have
    been taken.  The script only ever uses a draw as
    [Math.floor(Math.random() * n)], an index in [0, n): a raw draw is any
    natural number and is reduced modulo [n], so that every index below [n]
    can come out and nothing else can. *)
Record RandomSource := mkRandom {
  draws : nat -> nat;
  cursor : nat
}.

(** ** The whole state *)

Record State := mkState {
  currentQuestionIndex : nat;
  score : nat;
  questionAnswered : bool;
  activeQuizQuestions : list QuestionRecord;
  page : Page;
  consoleErrors : list (string * string);
  random : RandomSource
}.

(** Field updates. *)
Definition set_currentQuestionIndex (v : nat) (s : State) : State :=
  mkState v (score s) (questionAnswered s) (activeQuizQuestions s)
          (page s) (consoleErrors s) (random s).
Definition set_score (v : nat) (s : State) : State :=
  mkState (currentQuestionIndex s) v (questionAnswered s) (activeQuizQuestions s)
          (page s) (consoleErrors s) (random s).
Definition set_questionAnswered (v : bool) (s : State) : State :=
  mkState (currentQuestionIndex s) (score s) v (activeQuizQuestions s)
          (page s) (consoleErrors s) (random s).
Definition set_activeQuizQuestions (v : list QuestionRecord) (s : State) : State :=
  mkState (currentQuestionIndex s) (score s) (questionAnswered s) v
          (page s) (consoleErrors s) (random s).
Definition set_page (v : Page) (s : State) : State :=
  mkState (currentQuestionIndex s) (score s) (questionAnswered s)
          (activeQuizQuestions s) v (consoleErrors s) (random s).
Definition set_consoleErrors (v : list (string * string)) (s : State) : State :=
  mkState (currentQuestionIndex s) (score s) (questionAnswered s)
          (activeQuizQuestions s) (page s) v (random s).
Definition set_random (v : RandomSource) (s : State) : State :=
  mkState (currentQuestionIndex s) (score s) (questionAnswered s)
          (activeQuizQuestions s) (page s) (consoleErrors s) v.

Definition set_scoreDisplay (v : string) (p : Page) : Page :=
  mkPage v (questionText p) (optionsContainer p) (nextButton p)
         (restartButton p) (resultMessage p).
Definition set_questionText (v : string) (p : Page) : Page :=
  mkPage (scoreDisplay p) v (optionsContainer p) (nextButton p)
         (restartButton p) (resultMessage p).
Definition set_optionsContainer (v : list Button) (p : Page) : Page :=
  mkPage (scoreDisplay p) (questionText p) v (nextButton p)
         (restartButton p) (resultMessage p).
Definition set_nextButton (v : ClassList) (p : Page) : Page :=
  mkPage (scoreDisplay p) (questionText p) (optionsContainer p) v
         (restartButton p) (resultMessage p).
Definition set_restartButton (v : ClassList) (p : Page) : Page :=
  mkPage (scoreDisplay p) (questionText p) (optionsContainer p) (nextButton p)
         v (resultMessage p).
Definition set_resultMessage (v : MessageBox) (p : Page) : Page :=
  mkPage (scoreDisplay p) (questionText p) (optionsContainer p) (nextButton p)
         (restartButton p) v.

(** ** The monad of script computations *)

Definition Js (A : Type) : Type := State -> A * State.

Definition ret {A} (a : A) : Js A := fun s => (a, s).
Definition bind {A B} (c : Js A) (k : A -> Js B) : Js B :=
  fun s => let (a, s') := c s in k a s'.
Definition get {A} (f : State -> A) : Js A := fun s => (f s, s).
Definition modify (f : State -> State) : Js unit := fun s => (tt, f s).
Definition modify_page (f : Page -> Page) : Js unit :=
  modify (fun s => set_page (f (page s)) s).

Declare Scope js_scope.
Delimit Scope js_scope with js.
Notation "'let!' x ':=' c 'in' k" := (bind c (fun x => k))
  (at level 10, x name, c at level 100, k at level 200) : js_scope.
Notation "c ';;' k" := (bind c (fun _ => k))
  (at level 100, k at level 200, right associativity) : js_scope.
Local Open Scope js_scope.

(** The state a computation ends in. *)
Definition exec {A} (c : Js A) (s : State) : State := (c s).2.
(** The value a computation returns. *)
Definition eval {A} (c : Js A) (s : State) : A := (c s).1.

(** [Math.floor(Math.random() * n)]: takes one draw. *)
Definition random_floor (n : nat) : Js nat := fun s =>
  let r := random s in
  (if n =? 0 then 0 else draws r (cursor r) mod n,
   set_random (mkRandom (draws r) (S (cursor r))) s).

(** Number to text, as a template literal prints a non-negative integer. *)
Definition show_nat (n : nat) : string := NilEmpty.string_of_uint (Nat.to_uint n).

(** ** [shuffleArray] *)

(** [[array[i], array[j]] = [array[j], array[i]]]: the right-hand side is read
    first, then [array[i]] and [array[j]] are written in that order.  The loop
    below only swaps positions inside the array ([swap_in_range]); outside it
    the array is left alone here. *)
Definition swap {A} (i j : nat) (array : list A) : list A :=
  match array !! i, array !! j with
  | Some ai, Some aj => <[j := ai]> (<[i := aj]> array)
  | _, _ => array
  end.

(** [for (let i = ...; i > 0; i--)], entered with the current [i]. *)
Fixpoint shuffle_from {A} (i : nat) (array : list A) : Js (list A) :=
  match i with
  | 0 => ret array
  | S i' =>
      let! j := random_floor (i + 1) in
      shuffle_from i' (swap i j array)
  end.

Definition shuffleArray {A} (array : list A) : Js (list A) :=
  shuffle_from (length array - 1) array.

(** ** The functions of the script *)

(** [updateScoreDisplay]: the total falls back to [QUIZ_LENGTH] while the
    session has no questions ([length || QUIZ_LENGTH]). *)
Definition updateScoreDisplay : Js unit :=
  let! sc := get score in
  let! qs := get activeQuizQuestions in
  let total := if length qs =? 0 then QUIZ_LENGTH else length qs in
  modify_page (set_scoreDisplay
    ("Score: " +:+ show_nat sc +:+ " / " +:+ show_nat total)).

Definition showMessage (message bgColorClass textColorClass : string) : Js unit :=
  modify_page (fun p =>
    let cl := msgClasses (resultMessage p) in
    let cl := classList_remove
      [ "hidden"; "bg-yellow-900/50"; "text-yellow-300"; "bg-emerald-900/50";
        "text-emerald-300"; "bg-red-900/50"; "text-red-300" ] cl in
    let cl := classList_add [ bgColorClass; textColorClass ] cl in
    set_resultMessage (mkMessageBox message cl) p).

Definition perfectMessage : string :=
  "You've achieved perfect resolution! All correct!".

(** The [finalMessage] constant of [showResults], for a score and a total. *)
Definition finalMessage (sc total : nat) : string :=
  if sc =? total
  then perfectMessage
  else "You scored " +:+ show_nat sc +:+ " out of " +:+ show_nat total
       +:+ ". Keep learning about our world!".

Definition showResults : Js unit :=
  modify_page (set_questionText "Quiz Complete!") ;;
  modify_page (set_optionsContainer []) ;;
  modify_page (fun p => set_nextButton (classList_add ["hidden"] (nextButton p)) p) ;;
  modify_page (fun p =>
    set_restartButton (classList_remove ["hidden"] (restartButton p)) p) ;;
  let! sc := get score in
  let! qs := get activeQuizQuestions in
  showMessage (finalMessage sc (length qs)) "bg-indigo-900/50" "text-indigo-300".

(** The classes every option button is created with. *)
Definition optionButtonClasses : ClassList :=
  classList_add
    [ "option-button";
      "py-3"; "px-4"; "text-white"; "font-medium"; "rounded-lg";
      "shadow-md"; "text-left"; "transition"; "duration-150";
      "bg-gray-600"; "hover:bg-indigo-500"; "focus:outline-none";
      "focus:ring-4"; "focus:ring-indigo-500"; "focus:ring-opacity-50" ] [].

(** The body of the [forEach] of [loadQuestion], for one option. *)
Definition makeOptionButton (correctAnswer option : string) : Button :=
  mkButton option optionButtonClasses false option correctAnswer.

Definition loadQuestion : Js unit :=
  let! idx := get currentQuestionIndex in
  let! qs := get activeQuizQuestions in
  if length qs <=? idx then showResults
  else
    match qs !! idx with
    | None => ret tt (* not reached: [idx < length qs] here *)
    | Some current =>
        modify_page (set_questionText
          ("Q" +:+ show_nat (idx + 1) +:+ ": " +:+ question current)) ;;
        modify_page (set_optionsContainer []) ;;
        modify_page (fun p =>
          set_nextButton (classList_add ["hidden"] (nextButton p)) p) ;;
        modify_page (fun p => set_resultMessage
          (mkMessageBox (msgText (resultMessage p))
             (classList_add ["hidden"] (msgClasses (resultMessage p)))) p) ;;
        modify (set_questionAnswered false) ;;
        (* [[...current.options]] is a copy: the record keeps its order *)
        let! shuffledOptions := shuffleArray (options current) in
        modify_page (fun p => set_optionsContainer
          (optionsContainer p ++ (makeOptionButton (answer current) <$> shuffledOptions)) p)
    end.

Definition initQuiz : Js unit :=
  modify (set_currentQuestionIndex 0) ;;
  modify (set_score 0) ;;
  modify (set_questionAnswered false) ;;
  updateScoreDisplay ;;
  modify_page (fun p =>
    set_restartButton (classList_add ["hidden"] (restartButton p)) p) ;;
  modify_page (fun p => set_resultMessage
    (mkMessageBox (msgText (resultMessage p))
       (classList_add ["hidden"] (msgClasses (resultMessage p)))) p) ;;
  loadQuestion.

Definition nextQuestion : Js unit :=
  modify (fun s => set_currentQuestionIndex (currentQuestionIndex s + 1) s) ;;
  loadQuestion.

(** [document.querySelectorAll('.option-button').forEach(f)]: the option
    buttons of the page are the children of [#options-container]. *)
Definition forEachOptionButton (f : Button -> Button) : Js unit :=
  modify_page (fun p => set_optionsContainer
    ((fun b => if decide ("option-button" ∈ btnClasses b) then f b else b)
       <$> optionsContainer p) p).

Definition withClasses (f : ClassList -> ClassList) (b : Button) : Button :=
  mkButton (btnText b) (f (btnClasses b)) (btnDisabled b)
           (onclickOption b) (onclickAnswer b).

(** A pick from a message pool; every index the script computes is inside the
    pool ([random_floor_lt]), where a missing entry would print as
    "undefined". *)
Definition pick (pool : list string) (i : nat) : string :=
  default "undefined" (pool !! i).

(** [checkAnswer]: [selectedButton] is the position of the clicked button
    among the option buttons. *)
Definition checkAnswer (selectedButton : nat) (selectedOption correctAnswer : string)
  : Js unit :=
  let! answered := get questionAnswered in
  if answered then ret tt
  else
    modify (set_questionAnswered true) ;;
    let isCorrect := String.eqb selectedOption correctAnswer in
    forEachOptionButton (fun b =>
      withClasses (classList_remove ["focus:ring-indigo-500"])
        (withClasses (classList_remove ["hover:bg-indigo-500"])
           (mkButton (btnText b) (btnClasses b) true
                     (onclickOption b) (onclickAnswer b)))) ;;
    forEachOptionButton (fun b =>
      if String.eqb (btnText b) correctAnswer
      then withClasses (classList_add ["bg-emerald-600"; "ring-2"; "ring-emerald-400"])
             (withClasses (classList_remove ["bg-gray-600"]) b)
      else b) ;;
    (if isCorrect then
       modify (fun s => set_score (score s + 1) s) ;;
       modify_page (fun p => set_optionsContainer
         (alter (withClasses (classList_add ["ring-4"; "ring-emerald-300/80"]))
            selectedButton (optionsContainer p)) p) ;;
       let! k := random_floor (length correctMessages) in
       showMessage (pick correctMessages k) "bg-emerald-900/50" "text-emerald-300"
     else
       modify_page (fun p => set_optionsContainer
         (alter (fun b =>
                   withClasses (classList_add ["bg-red-600"; "ring-4"; "ring-red-300/80"])
                     (withClasses (classList_remove ["bg-gray-600"]) b))
            selectedButton (optionsContainer p)) p) ;;
       let! k := random_floor (length incorrectMessages) in
       showMessage
         (pick incorrectMessages k +:+ " The correct answer was: "
            +:+ correctAnswer +:+ ".")
         "bg-red-900/50" "text-red-300") ;;
    updateScoreDisplay ;;
    modify_page (fun p =>
      set_nextButton (classList_remove ["hidden"] (nextButton p)) p).

(** The handler of an option button,
    [button.onclick = () => checkAnswer(button, option, current.answer)],
    called for the button at position [k]. *)
Definition clickOption (k : nat) : Js unit :=
  let! p := get page in
  match optionsContainer p !! k with
  | Some b => checkAnswer k (onclickOption b) (onclickAnswer b)
  | None => ret tt
  end.

(** ** Loading the bank *)

(** What [res.json()] and the spread [[...quizData]] can make of the body.
    The records of a bank are taken as typed: the script does not check
    them. *)
Inductive Body :=
  | JsonRejected (err : string)      (* [res.json()] rejects: not JSON *)
  | JsonNotIterable (err : string)   (* the spread throws: not an array *)
  | JsonBank (quizData : list QuestionRecord).

(** What [fetch('questions.json')] settles to. *)
Inductive FetchOutcome :=
  | FetchRejected (err : string)     (* the resource cannot be reached *)
  | Response (ok : bool) (status : nat) (body : Body).

Definition loadFailedText : string :=
  "Failed to load questions. Please make sure questions.json is available.".

(** The [catch] block. *)
Definition catchLoadError (err : string) : Js unit :=
  modify (fun s => set_consoleErrors
    (consoleErrors s ++ [("Error loading question bank:", err)]) s) ;;
  modify_page (set_questionText loadFailedText).

(** "Shuffle and pick 10": lines 53 to 55. *)
Definition pickQuestions (quizData : list QuestionRecord) : Js (list QuestionRecord) :=
  let! shuffled := shuffleArray quizData in
  ret (take QUIZ_LENGTH shuffled).

Definition loadQuestionsAndInit (res : FetchOutcome) : Js unit :=
  match res with
  | FetchRejected err => catchLoadError err
  | Response false status _ =>
      catchLoadError ("Failed to load questions.json (" +:+ show_nat status +:+ ")")
  | Response true _ (JsonRejected err) => catchLoadError err
  | Response true _ (JsonNotIterable err) => catchLoadError err
  | Response true _ (JsonBank quizData) =>
      let! picked := pickQuestions quizData in
      modify (set_activeQuizQuestions picked) ;;
      initQuiz
  end.

(** ** States and outcomes named in the statements *)

(** The state [initQuiz] hands to [loadQuestion]. *)
Definition initQuiz_reset (s : State) : State :=
  mkState 0 0 false (activeQuizQuestions s)
    (mkPage
       ("Score: 0 / "
          +:+ show_nat (if length (activeQuizQuestions s) =? 0
                        then QUIZ_LENGTH else length (activeQuizQuestions s)))
       (questionText (page s))
       (optionsContainer (page s))
       (nextButton (page s))
       (classList_add ["hidden"] (restartButton (page s)))
       (mkMessageBox (msgText (resultMessage (page s)))
          (classList_add ["hidden"] (msgClasses (resultMessage (page s))))))
    (consoleErrors s) (random s).


(** What the [catch] block leaves behind: the start state with one more
    console entry and the failure text. *)
Definition failedLoad (err : string) (s : State) : State :=
  set_page (set_questionText loadFailedText (page s))
    (set_consoleErrors
       (consoleErrors s ++ [("Error loading question bank:", err)]) s).

(** Unfolds the monad so that a call becomes a term on the start state. *)
Ltac js_unfold :=
  unfold exec, eval, bind, ret, get, modify_page, modify in *.

(** Settles a conjunction of equations between closed terms by running
    the script. *)
Ltac run_session := repeat apply conj; vm_compute; reflexivity.

(** * Worked sessions *)

(** A small bank, a bank of twelve, a page as the document starts with, and a
    random source. *)
Definition qFish : QuestionRecord :=
  mkQuestion "Which fish is tracked by acoustic telemetry in the river survey?"
    ["catfish"; "sturgeon"; "trout"; "pike"] "sturgeon".
Definition qDatum : QuestionRecord :=
  mkQuestion "Which datum does GPS use?" ["NAD27"; "WGS84"] "WGS84".
Definition qNdvi : QuestionRecord :=
  mkQuestion "What does NDVI measure?"
    ["Vegetation"; "Elevation"; "Salinity"] "Vegetation".

Definition smallBank : list QuestionRecord := [qFish; qDatum; qNdvi].

Definition numbered (n : nat) : QuestionRecord :=
  mkQuestion ("Layer " +:+ show_nat n) ["raster"; "vector"; "tin"; "mesh"] "raster".

Definition largeBank : list QuestionRecord := numbered <$> seq 1 12.

Definition startPage : Page :=
  mkPage "" "" [] ["hidden"] ["hidden"] (mkMessageBox "" ["hidden"]).

Definition startState : State :=
  mkState 0 0 false [] startPage [] (mkRandom (fun k => 7 * k + 3) 0).

(** The small bank loaded; the first question (the datum) answered wrongly;
    the second answered rightly and the third (the fish) on the page; the
    third answered rightly and the session at its end. *)
Definition loadedState : State :=
  exec (loadQuestionsAndInit (Response true 200 (JsonBank smallBank))) startState.

Definition answeredState : State := exec (clickOption 0) loadedState.

Definition fishState : State :=
  exec (nextQuestion ;; clickOption 1 ;; nextQuestion) answeredState.

Definition finishedState : State :=
  exec (clickOption 0 ;; nextQuestion) fishState.


(** ** The user's actions *)

(** The three things a user can do: click the option button at a position,
    click "next" ([nextQuestion]) and click "restart" ([initQuiz]). *)
Inductive Action :=
  | ClickOption (k : nat)
  | ClickNext
  | ClickRestart.

Definition perform (a : Action) : Js unit :=
  match a with
  | ClickOption k => clickOption k
  | ClickNext => nextQuestion
  | ClickRestart => initQuiz
  end.

Fixpoint performAll (acts : list Action) : Js unit :=
  match acts with
  | [] => ret tt
  | a :: rest => perform a ;; performAll rest
  end.

(** A walk through the session: for each entry the current question is
    answered with the given button and option text, against the question's
    own answer as the button's handler does, and "next" is clicked. *)
Definition answerCurrent (selectedButton : nat) (selectedOption : string) : Js unit :=
  let! idx := get currentQuestionIndex in
  let! qs := get activeQuizQuestions in
  match qs !! idx with
  | Some current => checkAnswer selectedButton selectedOption (answer current)
  | None => ret tt
  end.

Fixpoint play (choices : list (nat * string)) : Js unit :=
  match choices with
  | [] => ret tt
  | (selectedButton, selectedOption) :: rest =>
      answerCurrent selectedButton selectedOption ;;
      nextQuestion ;;
      play rest
  end.

(** How many of the chosen texts are the answers of the questions they are
    given to. *)
Fixpoint correctCount (choices : list (nat * string)) (qs : list QuestionRecord) : nat :=
  match choices, qs with
  | (_, selectedOption) :: choices', q :: qs' =>
      (if String.eqb selectedOption (answer q) then 1 else 0)
      + correctCount choices' qs'
  | _, _ => 0
  end.

(** ** The pieces of [checkAnswer] and [updateScoreDisplay], named *)

(** The text [updateScoreDisplay] writes for a score and a number of
    questions. *)
Definition scoreText (sc n : nat) : string :=
  "Score: " +:+ show_nat sc +:+ " / "
    +:+ show_nat (if n =? 0 then QUIZ_LENGTH else n).

(** The first [forEach] of [checkAnswer], for one button. *)
Definition disableButton (b : Button) : Button :=
  withClasses (classList_remove ["focus:ring-indigo-500"])
    (withClasses (classList_remove ["hover:bg-indigo-500"])
       (mkButton (btnText b) (btnClasses b) true
                 (onclickOption b) (onclickAnswer b))).

(** The second [forEach] of [checkAnswer], for one button. *)
Definition highlightButton (correctAnswer : string) (b : Button) : Button :=
  if String.eqb (btnText b) correctAnswer
  then withClasses (classList_add ["bg-emerald-600"; "ring-2"; "ring-emerald-400"])
         (withClasses (classList_remove ["bg-gray-600"]) b)
  else b.

(** What [checkAnswer] does to the clicked button. *)
Definition markSelected (isCorrect : bool) (b : Button) : Button :=
  if isCorrect
  then withClasses (classList_add ["ring-4"; "ring-emerald-300/80"]) b
  else withClasses (classList_add ["bg-red-600"; "ring-4"; "ring-red-300/80"])
         (withClasses (classList_remove ["bg-gray-600"]) b).

Definition ifOptionButton (f : Button -> Button) (b : Button) : Button :=
  if decide ("option-button" ∈ btnClasses b) then f b else b.

(** ** What holds of a session in progress *)

(** The option buttons on the page belong to the question [current]: each is
    an option button whose handler submits its own text against the
    question's answer, all are disabled exactly when the question has been
    answered, and their texts are the question's options in some order. *)
Definition buttons_ok (s : State) (current : QuestionRecord) : Prop :=
  Forall (fun b => "option-button" ∈ btnClasses b
                   ∧ btnDisabled b = questionAnswered s
                   ∧ onclickOption b = btnText b
                   ∧ onclickAnswer b = answer current)
         (optionsContainer (page s))
  ∧ btnText <$> optionsContainer (page s) ≡ₚ options current.

(** The page agrees with the session: either a question is on the page, or
    the questions are used up and the closing screen is. *)
Definition session_ok (s : State) : Prop :=
  scoreDisplay (page s) = scoreText (score s) (length (activeQuizQuestions s))
  ∧ match activeQuizQuestions s !! currentQuestionIndex s with
    | Some current =>
        score s ≤ currentQuestionIndex s + (if questionAnswered s then 1 else 0)
        ∧ "hidden" ∈ restartButton (page s)
        ∧ ("hidden" ∈ nextButton (page s) ↔ questionAnswered s = false)
        ∧ ("hidden" ∈ msgClasses (resultMessage (page s))
           ↔ questionAnswered s = false)
        ∧ questionText (page s)
          = "Q" +:+ show_nat (currentQuestionIndex s + 1) +:+ ": "
              +:+ question current
        ∧ buttons_ok s current
    | None =>
        score s ≤ length (activeQuizQuestions s)
        ∧ ("hidden" ∉ restartButton (page s))
        ∧ "hidden" ∈ nextButton (page s)
        ∧ ("hidden" ∉ msgClasses (resultMessage (page s)))
        ∧ optionsContainer (page s) = []
        ∧ questionText (page s) = "Quiz Complete!"
        ∧ msgText (resultMessage (page s))
          = finalMessage (score s) (length (activeQuizQuestions s))
    end.

(** Where a walk stands between two questions: on a question without an
    answer, or on the closing screen with the message for the score. *)
Definition between_questions (s : State) : Prop :=
  (currentQuestionIndex s < length (activeQuizQuestions s) →
   questionAnswered s = false)
  ∧ (length (activeQuizQuestions s) ≤ currentQuestionIndex s →
     questionText (page s) = "Quiz Complete!"
     ∧ msgText (resultMessage (page s))
       = finalMessage (score s) (length (activeQuizQuestions s))).

(** The seven classes [showMessage] takes off the message box. *)
Definition messagePalette : list string :=
  [ "hidden"; "bg-yellow-900/50"; "text-yellow-300"; "bg-emerald-900/50";
    "text-emerald-300"; "bg-red-900/50"; "text-red-300" ].

(** * Properties *)

(** ** The random index *)

Lemma random_floor_lt (n : nat) (s : State) :
  n ≠ 0 → eval (random_floor n) s < n.
Proof.
  intros Hn. unfold eval, random_floor. simpl.
  destruct (Nat.eqb_spec n 0) as [->|_]; [done|].
  by apply Nat.mod_upper_bound.
Qed.

Lemma random_floor_state (n : nat) (s : State) :
  exec (random_floor n) s
  = set_random (mkRandom (draws (random s)) (S (cursor (random s)))) s.
Proof. reflexivity. Qed.

(** ** [swap] and the shuffle loop *)

Section Shuffle.
Context {A : Type}.
Implicit Types (array l : list A) (i j : nat).

Lemma length_swap i j array : length (swap i j array) = length array.
Proof.
  unfold swap. destruct (array !! i), (array !! j); trivial.
  by rewrite !length_insert.
Qed.

(** Overwriting position [j], which held [y], by [x]: the list with [y] in
    front is the old list with [x] in front, up to order. *)
Lemma insert_exchange l j x y :
  l !! j = Some y → y :: <[j := x]> l ≡ₚ x :: l.
Proof.
  revert j. induction l as [|a l IH]; intros [|j] Hj; simplify_eq/=.
  - apply perm_swap.
  - rewrite (perm_swap a y), (IH j Hj). apply perm_swap.
Qed.

Lemma swap_Permutation i j array : swap i j array ≡ₚ array.
Proof.
  unfold swap.
  destruct (array !! i) as [ai|] eqn:Hi; [|done].
  destruct (array !! j) as [aj|] eqn:Hj; [|done].
  revert i j Hi Hj.
  induction array as [|a l IH]; intros [|i] [|j] Hi Hj; simplify_eq/=.
  - done.
  - by apply insert_exchange.
  - by apply insert_exchange.
  - f_equiv. by apply IH.
Qed.

(** The loop only changes the cursor of the random source: it takes one
    draw per round. *)
Lemma shuffle_from_state i array s :
  exec (shuffle_from i array) s
  = set_random (mkRandom (draws (random s)) (i + cursor (random s))) s.
Proof.
  revert array s. induction i as [|i IH]; intros array s.
  - by destruct s as [? ? ? ? ? ? []].
  - unfold exec in *. simpl. unfold bind. simpl.
    rewrite IH. unfold set_random. simpl. do 2 f_equal. lia.
Qed.

Lemma shuffle_from_Permutation i array s :
  eval (shuffle_from i array) s ≡ₚ array.
Proof.
  revert array s. induction i as [|i IH]; intros array s; [done|].
  unfold eval in *. simpl. unfold bind. simpl.
  rewrite IH. apply swap_Permutation.
Qed.

Lemma shuffleArray_Permutation array s :
  eval (shuffleArray array) s ≡ₚ array.
Proof. apply shuffle_from_Permutation. Qed.

Lemma shuffleArray_length array s :
  length (eval (shuffleArray array) s) = length array.
Proof. by rewrite shuffleArray_Permutation. Qed.

Lemma shuffleArray_state array s :
  exec (shuffleArray array) s
  = set_random (mkRandom (draws (random s))
                  (length array - 1 + cursor (random s))) s.
Proof. apply shuffle_from_state. Qed.

(** Every swap of the loop is inside the array: [i] runs below the length
    and [j] is drawn from [0 .. i]. *)
Lemma swap_in_range i array s :
  S i < length array →
  let j := eval (random_floor (S i + 1)) s in
  is_Some (array !! S i) ∧ is_Some (array !! j).
Proof.
  intros Hi j. split; apply lookup_lt_is_Some; [done|].
  pose proof (random_floor_lt (S i + 1) s ltac:(lia)). unfold j. lia.
Qed.
End Shuffle.

(** The loop moves positions, not contents: two arrays related position by
    position stay related when shuffled with the same draws. *)
Lemma swap_Forall2 {A B} (R : A → B → Prop) i j (l : list A) (k : list B) :
  Forall2 R l k → Forall2 R (swap i j l) (swap i j k).
Proof.
  intros H. unfold swap.
  destruct (l !! i) as [x|] eqn:Hli.
  - destruct (Forall2_lookup_l _ _ _ _ _ H Hli) as (x' & -> & Hx).
    destruct (l !! j) as [y|] eqn:Hlj.
    + destruct (Forall2_lookup_l _ _ _ _ _ H Hlj) as (y' & -> & Hy).
      by repeat apply Forall2_insert.
    + apply lookup_ge_None in Hlj. rewrite (Forall2_length _ _ _ H) in Hlj.
      apply lookup_ge_None in Hlj. by rewrite Hlj.
  - apply lookup_ge_None in Hli. rewrite (Forall2_length _ _ _ H) in Hli.
    apply lookup_ge_None in Hli. by rewrite Hli.
Qed.

Lemma shuffle_from_Forall2 {A B} (R : A → B → Prop) i (l : list A) (k : list B) s :
  Forall2 R l k →
  Forall2 R (eval (shuffle_from i l) s) (eval (shuffle_from i k) s).
Proof.
  revert l k s. induction i as [|i IH]; intros l k s H; [done|].
  unfold eval in *. simpl. unfold bind. simpl.
  apply IH. by apply swap_Forall2.
Qed.

(** One round of the loop. *)
Lemma shuffle_from_S {A} i (array : list A) s :
  shuffle_from (S i) array s
  = shuffle_from i (swap (S i) (eval (random_floor (S i + 1)) s) array)
      (exec (random_floor (S i + 1)) s).
Proof. reflexivity. Qed.

Lemma random_floor_random_only n s s' :
  random s = random s' → eval (random_floor n) s = eval (random_floor n) s'.
Proof. intros H. unfold eval, random_floor. cbn. by rewrite H. Qed.

(** The shuffle reads the random source and nothing else of the state. *)
Lemma shuffle_from_random_only {A} i (array : list A) s s' :
  random s = random s' →
  eval (shuffle_from i array) s = eval (shuffle_from i array) s'.
Proof.
  revert array s s'. induction i as [|i IH]; intros array s s' H; [done|].
  unfold eval in *. rewrite !shuffle_from_S.
  rewrite (random_floor_random_only _ s s' H).
  apply IH. rewrite !random_floor_state. cbn. by rewrite H.
Qed.

Lemma shuffleArray_random_only {A} (array : list A) s s' :
  random s = random s' →
  eval (shuffleArray array) s = eval (shuffleArray array) s'.
Proof. apply shuffle_from_random_only. Qed.

(** ** Running the script's functions *)

Lemma shuffleArray_run {A} (array : list A) s :
  shuffleArray array s
  = (eval (shuffleArray array) s,
     set_random (mkRandom (draws (random s))
                   (length array - 1 + cursor (random s))) s).
Proof. rewrite <- shuffleArray_state. unfold eval, exec. by destruct (shuffleArray _ _). Qed.

(** [showResults] writes to the page and to nothing else. *)
Lemma showResults_run s :
  exec showResults s
  = set_page
      (mkPage (scoreDisplay (page s)) "Quiz Complete!" []
         (classList_add ["hidden"] (nextButton (page s)))
         (classList_remove ["hidden"] (restartButton (page s)))
         (mkMessageBox (finalMessage (score s) (length (activeQuizQuestions s)))
            (classList_add ["bg-indigo-900/50"; "text-indigo-300"]
               (classList_remove
                  [ "hidden"; "bg-yellow-900/50"; "text-yellow-300";
                    "bg-emerald-900/50"; "text-emerald-300"; "bg-red-900/50";
                    "text-red-300" ] (msgClasses (resultMessage (page s)))))))
      s.
Proof. reflexivity. Qed.

Lemma finalMessage_perfect sc total :
  finalMessage sc total = perfectMessage ↔ sc = total.
Proof.
  unfold finalMessage. destruct (Nat.eqb_spec sc total) as [->|Hne].
  - done.
  - split; [|done]. unfold perfectMessage. simpl. discriminate.
Qed.

(** [loadQuestion] on a session whose questions are used up. *)
Lemma loadQuestion_done s :
  length (activeQuizQuestions s) ≤ currentQuestionIndex s →
  exec loadQuestion s = exec showResults s.
Proof.
  intros H. unfold loadQuestion. js_unfold. simpl.
  by destruct (Nat.leb_spec (length (activeQuizQuestions s)) (currentQuestionIndex s));
    [|lia].
Qed.

(** [loadQuestion] on a session that has a current question. *)
Lemma loadQuestion_current s current :
  activeQuizQuestions s !! currentQuestionIndex s = Some current →
  exec loadQuestion s
  = set_random
      (mkRandom (draws (random s))
         (length (options current) - 1 + cursor (random s)))
      (set_questionAnswered false
         (set_page
            (mkPage (scoreDisplay (page s))
               ("Q" +:+ show_nat (currentQuestionIndex s + 1) +:+ ": "
                  +:+ question current)
               (makeOptionButton (answer current)
                  <$> eval (shuffleArray (options current)) s)
               (classList_add ["hidden"] (nextButton (page s)))
               (restartButton (page s))
               (mkMessageBox (msgText (resultMessage (page s)))
                  (classList_add ["hidden"] (msgClasses (resultMessage (page s))))))
            s)).
Proof.
  intros H. pose proof (lookup_lt_Some _ _ _ H) as Hlt.
  unfold loadQuestion. js_unfold. simpl.
  destruct (Nat.leb_spec (length (activeQuizQuestions s)) (currentQuestionIndex s));
    [lia|].
  rewrite H. simpl. rewrite shuffleArray_run. simpl.
  by rewrite (shuffleArray_random_only _ _ s).
Qed.

(** Either the questions are used up or there is a current one. *)
Lemma loadQuestion_cases s :
  (length (activeQuizQuestions s) ≤ currentQuestionIndex s
   ∧ exec loadQuestion s = exec showResults s)
  ∨ (∃ current,
       activeQuizQuestions s !! currentQuestionIndex s = Some current).
Proof.
  destruct (activeQuizQuestions s !! currentQuestionIndex s) as [current|] eqn:H.
  - right. by exists current.
  - left. apply lookup_ge_None in H. split; [done|]. by apply loadQuestion_done.
Qed.

(** [loadQuestion] keeps the session's questions, index and score. *)
Lemma loadQuestion_session s :
  let s' := exec loadQuestion s in
  activeQuizQuestions s' = activeQuizQuestions s
  ∧ currentQuestionIndex s' = currentQuestionIndex s
  ∧ score s' = score s
  ∧ consoleErrors s' = consoleErrors s.
Proof.
  destruct (loadQuestion_cases s) as [[_ ->]|[current H]]; cbn zeta.
  - by rewrite showResults_run.
  - by rewrite (loadQuestion_current _ _ H).
Qed.

Lemma initQuiz_run s : exec initQuiz s = exec loadQuestion (initQuiz_reset s).
Proof. reflexivity. Qed.

(** [checkAnswer] on a question that has no answer yet. *)
Lemma checkAnswer_fresh selectedButton selectedOption correctAnswer s :
  questionAnswered s = false →
  let s' := exec (checkAnswer selectedButton selectedOption correctAnswer) s in
  questionAnswered s' = true
  ∧ score s' = (if String.eqb selectedOption correctAnswer
                then score s + 1 else score s)
  ∧ currentQuestionIndex s' = currentQuestionIndex s
  ∧ activeQuizQuestions s' = activeQuizQuestions s
  ∧ msgText (resultMessage (page s'))
    = (if String.eqb selectedOption correctAnswer
       then pick correctMessages (eval (random_floor (length correctMessages)) s)
       else pick incorrectMessages
              (eval (random_floor (length incorrectMessages)) s)
            +:+ " The correct answer was: " +:+ correctAnswer +:+ ".")
  ∧ random s' = mkRandom (draws (random s)) (S (cursor (random s))).
Proof.
  intros H. unfold checkAnswer, exec, bind, get. cbv beta iota. rewrite H.
  destruct (String.eqb selectedOption correctAnswer);
    repeat split; reflexivity.
Qed.

(** Every index below the pool's size picks one of its messages. *)
Lemma pick_incorrectMessages k :
  k < length incorrectMessages →
  incorrectMessages !! k = Some (pick incorrectMessages k).
Proof. intros H. do 5 (destruct k as [|k]; [done|]). cbn in H. lia. Qed.

(** * The claims *)


(** C2. On a question without an answer yet, [checkAnswer] compares the
    chosen option with the answer by equality of the two strings: when they
    are equal the score goes up by exactly one, when they differ it stays;
    the answered flag is set either way, and the index does not move. *)
Theorem checkAnswer_evaluates
    (selectedButton : nat) (selectedOption correctAnswer : string) (s : State) :
  questionAnswered s = false →
  let s' := exec (checkAnswer selectedButton selectedOption correctAnswer) s in
  (selectedOption = correctAnswer → score s' = score s + 1)
  ∧ (selectedOption ≠ correctAnswer → score s' = score s)
  ∧ questionAnswered s' = true
  ∧ currentQuestionIndex s' = currentQuestionIndex s.
Proof.
  intros H s'.
  destruct (checkAnswer_fresh selectedButton selectedOption correctAnswer s H)
    as (Ha & Hs & Hi & _).
  fold s' in Ha, Hs, Hi. repeat split; try done.
  - intros ->. by rewrite String.eqb_refl in Hs.
  - intros Hne. apply String.eqb_neq in Hne. by rewrite Hne in Hs.
Qed.

(** ** Sampling *)

(** A successful load: the bank is shuffled, cut to [QUIZ_LENGTH] and handed
    to [initQuiz]. *)
Lemma load_bank_run status (quizData : list QuestionRecord) s :
  exec (loadQuestionsAndInit (Response true status (JsonBank quizData))) s
  = exec initQuiz
      (set_activeQuizQuestions (take QUIZ_LENGTH (eval (shuffleArray quizData) s))
         (set_random (mkRandom (draws (random s))
                        (length quizData - 1 + cursor (random s))) s)).
Proof.
  unfold loadQuestionsAndInit, pickQuestions. js_unfold.
  by rewrite shuffleArray_run.
Qed.

Lemma load_bank_active status (quizData : list QuestionRecord) s :
  activeQuizQuestions
    (exec (loadQuestionsAndInit (Response true status (JsonBank quizData))) s)
  = take QUIZ_LENGTH (eval (shuffleArray quizData) s).
Proof.
  rewrite load_bank_run, initQuiz_run.
  by destruct (loadQuestion_session (initQuiz_reset
    (set_activeQuizQuestions (take QUIZ_LENGTH (eval (shuffleArray quizData) s))
       (set_random (mkRandom (draws (random s))
                      (length quizData - 1 + cursor (random s))) s)))) as [-> _].
Qed.

(** Each entry of a list sits at its own position. *)
Lemma Forall2_positions {A} (l : list A) :
  Forall2 (fun x i => l !! i = Some x) l (seq 0 (length l)).
Proof.
  apply Forall2_same_length_lookup. split; [by rewrite length_seq|].
  intros i x j Hx Hj. apply lookup_seq in Hj as [-> _]. done.
Qed.

(** The cut of a shuffled array, seen as the positions it came from. *)
Lemma take_shuffle_positions {A} n (l : list A) s :
  let positions := take n (eval (shuffleArray (seq 0 (length l))) s) in
  NoDup positions
  ∧ Forall2 (fun x i => l !! i = Some x) (take n (eval (shuffleArray l) s)) positions.
Proof.
  intros positions. split.
  - apply (sublist_NoDup _ (eval (shuffleArray (seq 0 (length l))) s)).
    + rewrite shuffleArray_Permutation. apply NoDup_seq.
    + apply sublist_take.
  - apply Forall2_take. unfold shuffleArray. rewrite length_seq.
    apply shuffle_from_Forall2, Forall2_positions.
Qed.

(** C3. From a bank of at least ten records a successful load keeps exactly
    ten: they are the records at ten different positions of the bank, so no
    entry of the bank is used twice (the ten are a sub-multiset of the bank,
    and are pairwise different when the bank's records are). *)
Theorem sample_from_large_bank
    (status : nat) (quizData : list QuestionRecord) (s : State) :
  QUIZ_LENGTH ≤ length quizData →
  let picked := activeQuizQuestions
    (exec (loadQuestionsAndInit (Response true status (JsonBank quizData))) s) in
  length picked = QUIZ_LENGTH
  ∧ (∃ positions : list nat,
       NoDup positions
       ∧ Forall2 (fun q i => quizData !! i = Some q) picked positions)
  ∧ (∀ q, q ∈ picked → q ∈ quizData)
  ∧ picked ⊆+ quizData
  ∧ (NoDup quizData → NoDup picked).
Proof.
  intros Hlen picked. unfold picked. rewrite load_bank_active.
  assert (take QUIZ_LENGTH (eval (shuffleArray quizData) s) ⊆+ quizData) as Hsub.
  { rewrite <- (shuffleArray_Permutation quizData s) at 2.
    apply sublist_submseteq, sublist_take. }
  split; [|split; [|split; [|split]]].
  - rewrite length_take_le; [done|]. by rewrite shuffleArray_length.
  - eexists. apply take_shuffle_positions.
  - intros q Hq. by apply (elem_of_submseteq _ _ _ Hq).
  - done.
  - intros Hnd. apply (sublist_NoDup _ (eval (shuffleArray quizData) s)).
    + by rewrite shuffleArray_Permutation.
    + apply sublist_take.
Qed.

(** C4. From a bank that is not empty and has fewer than ten records a
    successful load keeps all of them, each once and none added: the session's
    questions are the bank in shuffled order.  Nothing is reported as an
    error, and the first question is on the page. *)
Theorem sample_from_small_bank
    (status : nat) (quizData : list QuestionRecord) (s : State) :
  quizData ≠ [] →
  length quizData < QUIZ_LENGTH →
  let s' := exec (loadQuestionsAndInit (Response true status (JsonBank quizData))) s in
  length (activeQuizQuestions s') = length quizData
  ∧ activeQuizQuestions s' ≡ₚ quizData
  ∧ consoleErrors s' = consoleErrors s
  ∧ ∃ first, activeQuizQuestions s' !! 0 = Some first
             ∧ questionText (page s') = "Q1: " +:+ question first.
Proof.
  intros Hne Hlen s'.
  assert (take QUIZ_LENGTH (eval (shuffleArray quizData) s)
          = eval (shuffleArray quizData) s) as Htake.
  { apply take_ge. rewrite shuffleArray_length. lia. }
  assert (activeQuizQuestions s' = eval (shuffleArray quizData) s) as Hact.
  { unfold s'. by rewrite load_bank_active. }
  rewrite Hact, shuffleArray_length. split; [done|].
  split; [apply shuffleArray_Permutation|].
  unfold s'. rewrite load_bank_run, initQuiz_run, Htake.
  destruct (eval (shuffleArray quizData) s) as [|first rest] eqn:Hsh.
  { pose proof (shuffleArray_length quizData s) as Hl. rewrite Hsh in Hl.
    destruct quizData; [done|]. simpl in Hl. lia. }
  rewrite (loadQuestion_current _ first); [|done].
  split; [done|]. by exists first.
Qed.

(** The buttons made for a list of options carry these options as texts. *)
Lemma btnText_makeOptionButton correctAnswer (opts : list string) :
  btnText <$> (makeOptionButton correctAnswer <$> opts) = opts.
Proof. induction opts as [|o opts IH]; [done|]. cbn. by rewrite IH. Qed.

(** C5. Loading a question puts one button per option on the page, in an
    order that is a rearrangement of the record's options whatever the
    draws are: same texts, same multiplicities.  The answer's text is
    therefore among the buttons when it is among the options, and every
    button submits its own text against the record's answer. *)
Theorem loadQuestion_presents_permutation (s : State) (current : QuestionRecord) :
  activeQuizQuestions s !! currentQuestionIndex s = Some current →
  let shown := optionsContainer (page (exec loadQuestion s)) in
  btnText <$> shown ≡ₚ options current
  ∧ (answer current ∈ options current → answer current ∈ btnText <$> shown)
  ∧ Forall (fun b => onclickOption b = btnText b
                     ∧ onclickAnswer b = answer current) shown.
Proof.
  intros H shown. unfold shown. rewrite (loadQuestion_current _ _ H). cbn.
  assert (btnText <$> (makeOptionButton (answer current)
            <$> eval (shuffleArray (options current)) s)
          ≡ₚ options current) as Hperm.
  { rewrite btnText_makeOptionButton. apply shuffleArray_Permutation. }
  split; [done|]. split.
  - intros Hin. by rewrite Hperm.
  - apply Forall_fmap, Forall_true. done.
Qed.

(** ** Restart *)

(** C6, as the script has it.  [initQuiz] is the script's restart: it puts
    the score and the question index back to 0 and clears the answered flag,
    and it keeps the session's questions as they are, in the same order; no
    new sample is drawn. *)
Theorem initQuiz_restarts_same_questions (s : State) :
  let s' := exec initQuiz s in
  score s' = 0
  ∧ currentQuestionIndex s' = 0
  ∧ questionAnswered s' = false
  ∧ activeQuizQuestions s' = activeQuizQuestions s.
Proof.
  cbn zeta. rewrite initQuiz_run.
  destruct (loadQuestion_cases (initQuiz_reset s)) as [[_ ->]|[current H]].
  - by rewrite showResults_run.
  - by rewrite (loadQuestion_current _ _ H).
Qed.

(** ** Loading *)





(** ** Summary *)

(** C8. The closing message is a function of the score and the total alone:
    [showResults] shows [finalMessage] of the two and takes no draw.  That
    message is the fixed perfect-score text exactly when score and total are
    equal, and otherwise the text that names both numbers. *)
Theorem showResults_summary (s : State) :
  let s' := exec showResults s in
  msgText (resultMessage (page s'))
  = finalMessage (score s) (length (activeQuizQuestions s))
  ∧ random s' = random s
  ∧ ∀ sc total,
      (finalMessage sc total = perfectMessage ↔ sc = total)
      ∧ (sc ≠ total →
         finalMessage sc total
         = "You scored " +:+ show_nat sc +:+ " out of " +:+ show_nat total
           +:+ ". Keep learning about our world!").
Proof.
  cbn zeta. rewrite showResults_run. split; [done|]. split; [done|].
  intros sc total. split; [apply finalMessage_perfect|].
  intros Hne. unfold finalMessage.
  by destruct (Nat.eqb_spec sc total).
Qed.

(** C9. After a wrong answer the message shown is a prefix from
    [incorrectMessages], the one at the index the draw gives, followed by
    " The correct answer was: ", the answer and a full stop; so, whatever the
    draw, the message ends with "The correct answer was: <answer>.". *)
Theorem checkAnswer_incorrect_feedback
    (selectedButton : nat) (selectedOption correctAnswer : string) (s : State) :
  questionAnswered s = false →
  selectedOption ≠ correctAnswer →
  let shown := msgText (resultMessage (page
    (exec (checkAnswer selectedButton selectedOption correctAnswer) s))) in
  let k := eval (random_floor (length incorrectMessages)) s in
  ∃ prefix,
    incorrectMessages !! k = Some prefix
    ∧ shown = prefix +:+ " The correct answer was: " +:+ correctAnswer +:+ "."
    ∧ shown = (prefix +:+ " ")
              +:+ ("The correct answer was: " +:+ correctAnswer +:+ ".").
Proof.
  intros Hfresh Hne shown k.
  destruct (checkAnswer_fresh selectedButton selectedOption correctAnswer s Hfresh)
    as (_ & _ & _ & _ & Hmsg & _).
  apply String.eqb_neq in Hne. rewrite Hne in Hmsg. fold k in Hmsg.
  assert (k < length incorrectMessages) as Hk by (by apply random_floor_lt).
  exists (pick incorrectMessages k). split; [by apply pick_incorrectMessages|].
  unfold shown. rewrite Hmsg. split; [done|].
  clearbody k. do 5 (destruct k as [|k]; [done|]). cbn in Hk. lia.
Qed.

(** ** The empty session *)

(** C10. With no questions in the session, [initQuiz] goes straight to the
    closing screen: "Quiz Complete!" with no option buttons, the score 0, and
    the perfect-score text as the closing message, since 0 is the number of
    questions. *)
Theorem empty_session_is_perfect (s : State) :
  activeQuizQuestions s = [] →
  let s' := exec initQuiz s in
  questionText (page s') = "Quiz Complete!"
  ∧ optionsContainer (page s') = []
  ∧ score s' = 0
  ∧ msgText (resultMessage (page s')) = perfectMessage.
Proof.
  intros H. cbn zeta. rewrite initQuiz_run, loadQuestion_done.
  - rewrite showResults_run. cbn. by rewrite H.
  - cbn. rewrite H. cbn. lia.
Qed.


(** * The claims on the worked sessions *)


(** The datum question, fresh: the wrong option leaves the score at 0, the
    right one makes it 1, and both mark the question as answered. *)
Lemma checkAnswer_evaluates_witness :
  questionAnswered loadedState = false
  ∧ score (exec (checkAnswer 0 "NAD27" "WGS84") loadedState) = 0
  ∧ questionAnswered (exec (checkAnswer 0 "NAD27" "WGS84") loadedState) = true
  ∧ score (exec (checkAnswer 1 "WGS84" "WGS84") loadedState) = 1.
Proof.
  assert (questionAnswered loadedState = false) as H by reflexivity.
  split; [exact H|].
  destruct (checkAnswer_evaluates 0 "NAD27" "WGS84" loadedState H)
    as (_ & Hwrong & Hflag & _).
  destruct (checkAnswer_evaluates 1 "WGS84" "WGS84" loadedState H)
    as (Hright & _).
  split; [apply Hwrong; discriminate|]. split; [exact Hflag|].
  apply Hright. reflexivity.
Defined.

(** Spelling counts: a capital letter makes the option a wrong one. *)
Example checkAnswer_is_case_sensitive :
  score (exec (checkAnswer 0 "Sturgeon" "sturgeon") fishState) = score fishState
  ∧ score (exec (checkAnswer 0 "sturgeon" "sturgeon") fishState)
    = score fishState + 1.
Proof. run_session. Qed.

(** Ten of the twelve numbered records. *)
Lemma sample_from_large_bank_witness :
  QUIZ_LENGTH ≤ length largeBank
  ∧ length (activeQuizQuestions
      (exec (loadQuestionsAndInit (Response true 200 (JsonBank largeBank)))
         startState)) = QUIZ_LENGTH.
Proof.
  assert (QUIZ_LENGTH ≤ length largeBank) as H by (vm_compute; lia).
  split; [exact H|].
  exact (proj1 (sample_from_large_bank 200 largeBank startState H)).
Defined.

Example sample_from_large_bank_run :
  question <$> activeQuizQuestions
    (exec (loadQuestionsAndInit (Response true 200 (JsonBank largeBank))) startState)
  = [ "Layer 5"; "Layer 2"; "Layer 1"; "Layer 6"; "Layer 3"; "Layer 9";
      "Layer 12"; "Layer 10"; "Layer 7"; "Layer 8" ].
Proof. run_session. Qed.

(** The bank of three gives a session of three. *)
Lemma sample_from_small_bank_witness :
  smallBank ≠ []
  ∧ length smallBank < QUIZ_LENGTH
  ∧ length (activeQuizQuestions loadedState) = length smallBank
  ∧ activeQuizQuestions loadedState ≡ₚ smallBank.
Proof.
  assert (smallBank ≠ []) as Hne by discriminate.
  assert (length smallBank < QUIZ_LENGTH) as Hlt by (vm_compute; lia).
  split; [exact Hne|]. split; [exact Hlt|].
  destruct (sample_from_small_bank 200 smallBank startState Hne Hlt)
    as (Hlen & Hperm & _).
  split; [exact Hlen | exact Hperm].
Defined.

Example sample_from_small_bank_run :
  activeQuizQuestions loadedState = [qDatum; qNdvi; qFish]
  ∧ questionText (page loadedState) = "Q1: Which datum does GPS use?"
  ∧ scoreDisplay (page loadedState) = "Score: 0 / 3".
Proof. run_session. Qed.

(** The datum question on the page: its two options, rearranged. *)
Lemma loadQuestion_presents_permutation_witness :
  activeQuizQuestions loadedState !! currentQuestionIndex loadedState = Some qDatum
  ∧ btnText <$> optionsContainer (page (exec loadQuestion loadedState))
    ≡ₚ options qDatum.
Proof.
  assert (activeQuizQuestions loadedState !! currentQuestionIndex loadedState
          = Some qDatum) as H by (vm_compute; reflexivity).
  split; [exact H|].
  exact (proj1 (loadQuestion_presents_permutation loadedState qDatum H)).
Defined.

(** The fish question, "catfish" chosen for "sturgeon": the message names the
    right fish. *)
Lemma checkAnswer_incorrect_feedback_witness :
  questionAnswered fishState = false
  ∧ "catfish" ≠ "sturgeon"
  ∧ ∃ prefix,
      incorrectMessages !! eval (random_floor (length incorrectMessages)) fishState
      = Some prefix
      ∧ msgText (resultMessage (page
          (exec (checkAnswer 3 "catfish" "sturgeon") fishState)))
        = prefix +:+ " The correct answer was: " +:+ "sturgeon" +:+ "."
      ∧ msgText (resultMessage (page
          (exec (checkAnswer 3 "catfish" "sturgeon") fishState)))
        = (prefix +:+ " ")
          +:+ ("The correct answer was: " +:+ "sturgeon" +:+ ".").
Proof.
  assert (questionAnswered fishState = false) as H by (vm_compute; reflexivity).
  assert ("catfish" ≠ "sturgeon") as Hne by discriminate.
  split; [exact H|]. split; [exact Hne|].
  exact (checkAnswer_incorrect_feedback 3 "catfish" "sturgeon" fishState H Hne).
Defined.

Example checkAnswer_incorrect_feedback_run :
  msgText (resultMessage (page
    (exec (checkAnswer 3 "catfish" "sturgeon") fishState)))
  = "Try again, surveyor. The correct answer was: sturgeon."
  ∧ score (exec (checkAnswer 3 "catfish" "sturgeon") fishState) = score fishState
  ∧ questionAnswered (exec (checkAnswer 3 "catfish" "sturgeon") fishState) = true.
Proof. run_session. Qed.

(** A session without questions. *)
Lemma empty_session_is_perfect_witness :
  activeQuizQuestions startState = []
  ∧ questionText (page (exec initQuiz startState)) = "Quiz Complete!"
  ∧ optionsContainer (page (exec initQuiz startState)) = []
  ∧ score (exec initQuiz startState) = 0
  ∧ msgText (resultMessage (page (exec initQuiz startState))) = perfectMessage.
Proof.
  assert (activeQuizQuestions startState = []) as H by reflexivity.
  split; [exact H|].
  exact (empty_session_is_perfect startState H).
Defined.

(** The session of three played to its end with two right answers, then
    restarted. *)
Example finished_session_run :
  score finishedState = 2
  ∧ currentQuestionIndex finishedState = 3
  ∧ questionText (page finishedState) = "Quiz Complete!"
  ∧ msgText (resultMessage (page finishedState))
    = "You scored 2 out of 3. Keep learning about our world!".
Proof. run_session. Qed.

(** The same session with three right answers. *)
Example perfect_session_run :
  score (exec (clickOption 1 ;; nextQuestion ;; clickOption 1 ;; nextQuestion ;;
               clickOption 0 ;; nextQuestion) loadedState) = 3
  ∧ msgText (resultMessage (page
      (exec (clickOption 1 ;; nextQuestion ;; clickOption 1 ;; nextQuestion ;;
             clickOption 0 ;; nextQuestion) loadedState)))
    = perfectMessage.
Proof. run_session. Qed.

(** C6, as the claim has it, fails: after the restart the session has the
    questions it had before, in the order it had them, and not the sample that
    the draws at hand would make of the bank. *)
Lemma restart_replays_questions :
  activeQuizQuestions (exec initQuiz finishedState)
  = activeQuizQuestions finishedState
  ∧ activeQuizQuestions (exec initQuiz finishedState) = [qDatum; qNdvi; qFish]
  ∧ eval (pickQuestions smallBank) finishedState = [qFish; qDatum; qNdvi]
  ∧ activeQuizQuestions (exec initQuiz finishedState)
    ≠ eval (pickQuestions smallBank) finishedState.
Proof.
  split; [vm_compute; reflexivity|]. split; [vm_compute; reflexivity|].
  split; [vm_compute; reflexivity|]. vm_compute. discriminate.
Qed.


(** The other loads do fail, and leave the session alone. *)
Example not_found_load_fails :
  exec (loadQuestionsAndInit (Response false 404 (JsonBank smallBank))) startState
  = failedLoad "Failed to load questions.json (404)" startState.
Proof. run_session. Qed.

(** * More of the script *)

(** ** Class lists *)

#[local] Arguments classList_add : simpl never.
#[local] Arguments classList_remove : simpl never.

Lemma elem_of_classList_add t tokens (cl : ClassList) :
  t ∈ classList_add tokens cl ↔ t ∈ cl ∨ t ∈ tokens.
Proof.
  unfold classList_add. revert cl.
  induction tokens as [|u tokens IH]; intros cl; simpl.
  - split; [by left|]. intros [H|H]; [done|]. by apply elem_of_nil in H.
  - rewrite IH, elem_of_cons. case_decide as Hu.
    + split; [tauto|]. intros [H|[->|H]]; tauto.
    + rewrite elem_of_app, list_elem_of_singleton. tauto.
Qed.

Lemma elem_of_classList_remove t tokens (cl : ClassList) :
  t ∈ classList_remove tokens cl ↔ t ∈ cl ∧ t ∉ tokens.
Proof. unfold classList_remove. rewrite list_elem_of_filter. tauto. Qed.

Lemma hidden_after_add (cl : ClassList) : "hidden" ∈ classList_add ["hidden"] cl.
Proof. apply elem_of_classList_add. right. apply list_elem_of_singleton. done. Qed.

Lemma hidden_after_remove (cl : ClassList) : "hidden" ∉ classList_remove ["hidden"] cl.
Proof.
  rewrite elem_of_classList_remove. intros [_ H]. apply H.
  by apply list_elem_of_singleton.
Qed.

(** ** [checkAnswer], field by field *)

Lemma checkAnswer_fresh_page selectedButton selectedOption correctAnswer s :
  questionAnswered s = false →
  let s' := exec (checkAnswer selectedButton selectedOption correctAnswer) s in
  let isCorrect := String.eqb selectedOption correctAnswer in
  scoreDisplay (page s')
  = scoreText (if isCorrect then score s + 1 else score s)
      (length (activeQuizQuestions s))
  ∧ questionText (page s') = questionText (page s)
  ∧ optionsContainer (page s')
    = alter (markSelected isCorrect) selectedButton
        (ifOptionButton (highlightButton correctAnswer)
           <$> (ifOptionButton disableButton <$> optionsContainer (page s)))
  ∧ nextButton (page s') = classList_remove ["hidden"] (nextButton (page s))
  ∧ restartButton (page s') = restartButton (page s)
  ∧ msgClasses (resultMessage (page s'))
    = classList_add
        (if isCorrect then ["bg-emerald-900/50"; "text-emerald-300"]
         else ["bg-red-900/50"; "text-red-300"])
        (classList_remove
           [ "hidden"; "bg-yellow-900/50"; "text-yellow-300"; "bg-emerald-900/50";
             "text-emerald-300"; "bg-red-900/50"; "text-red-300" ]
           (msgClasses (resultMessage (page s))))
  ∧ consoleErrors s' = consoleErrors s.
Proof.
  intros H. unfold checkAnswer, exec, bind, get. cbv beta iota zeta. rewrite H.
  destruct (String.eqb selectedOption correctAnswer);
    repeat apply conj; reflexivity.
Qed.

Lemma option_button_kept_by_add tokens (cl : ClassList) :
  "option-button" ∈ cl → "option-button" ∈ classList_add tokens cl.
Proof. intros H. apply elem_of_classList_add. by left. Qed.

Lemma option_button_kept_by_remove token (cl : ClassList) :
  token ≠ "option-button" →
  "option-button" ∈ cl → "option-button" ∈ classList_remove [token] cl.
Proof.
  intros Hne H. apply elem_of_classList_remove. split; [done|].
  intros Hin%list_elem_of_singleton. congruence.
Qed.

(** What one option button becomes when its question is answered. *)
Lemma answered_button isCorrect (selected : bool) correctAnswer (b : Button) :
  "option-button" ∈ btnClasses b →
  let b1 := ifOptionButton (highlightButton correctAnswer)
              (ifOptionButton disableButton b) in
  let b2 := if selected then markSelected isCorrect b1 else b1 in
  btnText b2 = btnText b
  ∧ btnDisabled b2 = true
  ∧ onclickOption b2 = onclickOption b
  ∧ onclickAnswer b2 = onclickAnswer b
  ∧ "option-button" ∈ btnClasses b2.
Proof.
  intros Hb. unfold ifOptionButton at 2.
  destruct (decide ("option-button" ∈ btnClasses b)) as [_|Hn]; [|done].
  assert ("option-button" ∈ btnClasses (disableButton b)) as Hd.
  { cbn. by repeat apply option_button_kept_by_remove. }
  unfold ifOptionButton.
  destruct (decide ("option-button" ∈ btnClasses (disableButton b))) as [_|Hn];
    [|done].
  assert ("option-button" ∈ btnClasses (highlightButton correctAnswer (disableButton b)))
    as Hh.
  { unfold highlightButton. destruct (String.eqb _ _); [|done]. cbn.
    apply option_button_kept_by_add. by repeat apply option_button_kept_by_remove. }
  assert (btnText (highlightButton correctAnswer (disableButton b)) = btnText b
          ∧ btnDisabled (highlightButton correctAnswer (disableButton b)) = true
          ∧ onclickOption (highlightButton correctAnswer (disableButton b))
            = onclickOption b
          ∧ onclickAnswer (highlightButton correctAnswer (disableButton b))
            = onclickAnswer b) as (Ht & Hdis & Ho & Ha).
  { unfold highlightButton. by destruct (String.eqb _ _). }
  cbn zeta. destruct selected; [|done].
  unfold markSelected. destruct isCorrect; cbn; repeat apply conj; try done.
  - by apply option_button_kept_by_add.
  - apply option_button_kept_by_add. by apply option_button_kept_by_remove.
Qed.

(** [alter] past the end of a list does nothing. *)
Lemma alter_out_of_range {A} (f : A → A) k (l : list A) :
  length l ≤ k → alter f k l = l.
Proof.
  revert k. induction l as [|x l IH]; intros k Hk; [done|].
  destruct k as [|k]; simpl in *; [lia|]. f_equal. apply IH. lia.
Qed.

(** The option buttons of a question once it is answered: same texts and
    handlers, all disabled. *)
Lemma answered_buttons isCorrect k correctAnswer a (l : list Button) :
  Forall (fun b => "option-button" ∈ btnClasses b
                   ∧ onclickOption b = btnText b ∧ onclickAnswer b = a) l →
  let l' := alter (markSelected isCorrect) k
              (ifOptionButton (highlightButton correctAnswer)
                 <$> (ifOptionButton disableButton <$> l)) in
  btnText <$> l' = btnText <$> l
  ∧ Forall (fun b => "option-button" ∈ btnClasses b
                     ∧ btnDisabled b = true
                     ∧ onclickOption b = btnText b ∧ onclickAnswer b = a) l'.
Proof.
  intros H. revert k. induction H as [|b l (Hb & Ho & Ha) Hl IH]; intros k.
  - by destruct k.
  - destruct k as [|k].
    + destruct (answered_button isCorrect true correctAnswer b Hb)
        as (Ht & Hd & Ho' & Ha' & Hc).
      destruct (IH (length l)) as [IHt IHf].
      rewrite alter_out_of_range in IHt, IHf by (by rewrite !length_fmap).
      cbn in *. split.
      * by rewrite Ht, IHt.
      * constructor; [|done]. repeat split; congruence.
    + destruct (answered_button isCorrect false correctAnswer b Hb)
        as (Ht & Hd & Ho' & Ha' & Hc).
      destruct (IH k) as [IHt IHf]. cbn in *. split.
      * by rewrite Ht, IHt.
      * constructor; [|done]. repeat split; congruence.
Qed.

(** ** Composing computations *)

Lemma exec_bind {A B} (c : Js A) (k : A → Js B) s :
  exec (bind c k) s = exec (k (eval c s)) (exec c s).
Proof. unfold exec, eval, bind. by destruct (c s). Qed.

Lemma nextQuestion_run s :
  exec nextQuestion s
  = exec loadQuestion (set_currentQuestionIndex (currentQuestionIndex s + 1) s).
Proof. reflexivity. Qed.

(** The guard of [checkAnswer], on the state alone. *)
Lemma checkAnswer_guard selectedButton selectedOption correctAnswer s :
  questionAnswered s = true →
  exec (checkAnswer selectedButton selectedOption correctAnswer) s = s.
Proof. intros H. unfold checkAnswer, exec, bind, get. cbv beta iota. by rewrite H. Qed.

(** A click on an option button: nothing, or [checkAnswer] with what the
    button's handler holds. *)
Lemma clickOption_run k s :
  exec (clickOption k) s
  = match optionsContainer (page s) !! k with
    | Some b => exec (checkAnswer k (onclickOption b) (onclickAnswer b)) s
    | None => s
    end.
Proof.
  unfold clickOption, exec, bind, get. cbv beta iota.
  by destruct (optionsContainer (page s) !! k).
Qed.

Lemma clickOption_cases k s :
  exec (clickOption k) s = s
  ∨ ∃ b, optionsContainer (page s) !! k = Some b
         ∧ questionAnswered s = false
         ∧ exec (clickOption k) s
           = exec (checkAnswer k (onclickOption b) (onclickAnswer b)) s.
Proof.
  rewrite clickOption_run.
  destruct (optionsContainer (page s) !! k) as [b|] eqn:Hb; [|by left].
  destruct (questionAnswered s) eqn:Ha.
  - left. by apply checkAnswer_guard.
  - right. by exists b.
Qed.

(** ** No action changes the questions of the session *)

Lemma perform_questions a s :
  activeQuizQuestions (exec (perform a) s) = activeQuizQuestions s.
Proof.
  destruct a as [k| |]; simpl perform.
  - destruct (clickOption_cases k s) as [->|(b & _ & Ha & ->)]; [done|].
    by destruct (checkAnswer_fresh k (onclickOption b) (onclickAnswer b) s Ha)
      as (_ & _ & _ & -> & _).
  - rewrite nextQuestion_run.
    by destruct (loadQuestion_session
      (set_currentQuestionIndex (currentQuestionIndex s + 1) s)) as [-> _].
  - rewrite initQuiz_run.
    by destruct (loadQuestion_session (initQuiz_reset s)) as [-> _].
Qed.

Lemma performAll_cons a acts s :
  exec (performAll (a :: acts)) s = exec (performAll acts) (exec (perform a) s).
Proof. simpl performAll. by rewrite exec_bind. Qed.

(** ** The page agrees with the session *)

Lemma optionButtonClasses_option_button : "option-button" ∈ optionButtonClasses.
Proof. apply elem_of_classList_add. right. constructor. Qed.

Lemma hidden_after_message tokens (cl : ClassList) :
  "hidden" ∉ tokens →
  "hidden" ∉ classList_add tokens
    (classList_remove
       [ "hidden"; "bg-yellow-900/50"; "text-yellow-300"; "bg-emerald-900/50";
         "text-emerald-300"; "bg-red-900/50"; "text-red-300" ] cl).
Proof.
  intros Ht [H|H]%elem_of_classList_add; [|done].
  apply elem_of_classList_remove in H as [_ H]. apply H. constructor.
Qed.

Lemma hidden_not_colour (a b : string) :
  a ≠ "hidden" → b ≠ "hidden" → "hidden" ∉ [a; b].
Proof.
  intros Ha Hb H. apply elem_of_cons in H as [H|H]; [congruence|].
  apply list_elem_of_singleton in H. congruence.
Qed.

(** [loadQuestion] puts the page in agreement with the session, provided the
    score is shown and is at most the index (or, with no question left, at
    most the number of questions). *)
Lemma loadQuestion_ok s :
  scoreDisplay (page s) = scoreText (score s) (length (activeQuizQuestions s)) →
  match activeQuizQuestions s !! currentQuestionIndex s with
  | Some _ => score s ≤ currentQuestionIndex s ∧ "hidden" ∈ restartButton (page s)
  | None => score s ≤ length (activeQuizQuestions s)
  end →
  session_ok (exec loadQuestion s).
Proof.
  intros Hdisp Hpre. unfold session_ok.
  destruct (activeQuizQuestions s !! currentQuestionIndex s) as [current|] eqn:Hq.
  - destruct Hpre as [Hsc Hre].
    rewrite (loadQuestion_current _ _ Hq). cbn. rewrite Hq.
    split; [done|]. split; [lia|]. split; [done|].
    split; [split; [done|intros _; apply hidden_after_add]|].
    split; [split; [done|intros _; apply hidden_after_add]|].
    split; [done|]. split; cbn.
    + apply Forall_fmap, Forall_true. intros o. cbn.
      split; [apply optionButtonClasses_option_button|done].
    + rewrite btnText_makeOptionButton. apply shuffleArray_Permutation.
  - rewrite loadQuestion_done by (by apply lookup_ge_None).
    rewrite showResults_run. cbn. rewrite Hq.
    split; [done|]. split; [done|].
    split; [apply hidden_after_remove|]. split; [apply hidden_after_add|].
    split; [|done]. apply hidden_after_message. by apply hidden_not_colour.
Qed.

Lemma session_ok_initQuiz s : session_ok (exec initQuiz s).
Proof.
  rewrite initQuiz_run. apply loadQuestion_ok; [reflexivity|]. cbn.
  destruct (activeQuizQuestions s !! 0); [|lia].
  split; [lia|apply hidden_after_add].
Qed.

Lemma session_ok_nextQuestion s : session_ok s → session_ok (exec nextQuestion s).
Proof.
  intros [Hdisp Hs]. rewrite nextQuestion_run. apply loadQuestion_ok; [done|]. cbn.
  destruct (activeQuizQuestions s !! (currentQuestionIndex s + 1)) as [next|] eqn:Hn.
  - apply lookup_lt_Some in Hn.
    destruct (activeQuizQuestions s !! currentQuestionIndex s) as [current|] eqn:Hq.
    + destruct Hs as (Hsc & Hre & _). split; [|done].
      destruct (questionAnswered s); lia.
    + apply lookup_ge_None in Hq. lia.
  - destruct (activeQuizQuestions s !! currentQuestionIndex s) as [current|] eqn:Hq.
    + apply lookup_lt_Some in Hq. destruct Hs as (Hsc & _).
      destruct (questionAnswered s); lia.
    + by destruct Hs as (Hsc & _).
Qed.

Lemma session_ok_clickOption k s : session_ok s → session_ok (exec (clickOption k) s).
Proof.
  intros Hok.
  destruct (clickOption_cases k s) as [->|(b & Hb & Ha & ->)]; [done|].
  destruct Hok as [Hdisp Hs]. unfold session_ok.
  destruct (checkAnswer_fresh k (onclickOption b) (onclickAnswer b) s Ha)
    as (Hflag & Hscore & Hidx & Hqs & _).
  destruct (checkAnswer_fresh_page k (onclickOption b) (onclickAnswer b) s Ha)
    as (Hsd & Hqt & Hbtn & Hnext & Hrestart & Hmsg & _).
  cbv zeta in *. rewrite Hqs, Hidx, Hflag, Hsd, Hscore, Hqt, Hnext, Hrestart, Hmsg.
  split; [done|].
  destruct (activeQuizQuestions s !! currentQuestionIndex s) as [current|] eqn:Hq.
  - destruct Hs as (Hsc & Hre & _ & _ & Htext & Hbuttons & Hperm).
    rewrite Ha in *.
    split; [destruct (String.eqb _ _); lia|]. split; [done|].
    split; [split; [by intros ?%hidden_after_remove|done]|].
    split.
    { split; [|done]. intros Hh. exfalso. revert Hh.
      apply hidden_after_message.
      destruct (String.eqb _ _); by apply hidden_not_colour. }
    split; [done|]. unfold buttons_ok. rewrite Hbtn, Hflag.
    destruct (answered_buttons
      (String.eqb (onclickOption b) (onclickAnswer b)) k
      (onclickAnswer b) (answer current) (optionsContainer (page s)))
      as [Htexts Hall].
    { eapply Forall_impl; [exact Hbuttons|]. cbn. intros ? (? & ? & ? & ?). done. }
    split; [exact Hall|]. by rewrite Htexts.
  - destruct Hs as (_ & _ & _ & _ & Hempty & _). by rewrite Hempty in Hb.
Qed.

Lemma session_ok_perform a s : session_ok s → session_ok (exec (perform a) s).
Proof.
  destruct a as [k| |]; simpl perform; intros H.
  - by apply session_ok_clickOption.
  - by apply session_ok_nextQuestion.
  - apply session_ok_initQuiz.
Qed.

Lemma session_ok_performAll acts s :
  session_ok s → session_ok (exec (performAll acts) s).
Proof.
  revert s. induction acts as [|a acts IH]; intros s H; [done|].
  rewrite performAll_cons. by apply IH, session_ok_perform.
Qed.

(** ** A walk through the session *)

Lemma answerCurrent_run selectedButton selectedOption s :
  exec (answerCurrent selectedButton selectedOption) s
  = match activeQuizQuestions s !! currentQuestionIndex s with
    | Some current =>
        exec (checkAnswer selectedButton selectedOption (answer current)) s
    | None => s
    end.
Proof.
  unfold answerCurrent, exec, bind, get. cbv beta iota.
  by destruct (activeQuizQuestions s !! currentQuestionIndex s).
Qed.

Lemma play_cons selectedButton selectedOption choices s :
  exec (play ((selectedButton, selectedOption) :: choices)) s
  = exec (play choices)
      (exec nextQuestion (exec (answerCurrent selectedButton selectedOption) s)).
Proof. simpl play. by rewrite !exec_bind. Qed.

Lemma loadQuestion_between s : between_questions (exec loadQuestion s).
Proof.
  destruct (loadQuestion_cases s) as [[Hge ->]|[current H]].
  - rewrite showResults_run. split; cbn; [lia|done].
  - pose proof (lookup_lt_Some _ _ _ H).
    rewrite (loadQuestion_current _ _ H). split; cbn; [done|lia].
Qed.

Lemma play_from choices s :
  between_questions s →
  currentQuestionIndex s + length choices = length (activeQuizQuestions s) →
  let s' := exec (play choices) s in
  score s' = score s
             + correctCount choices
                 (drop (currentQuestionIndex s) (activeQuizQuestions s))
  ∧ currentQuestionIndex s' = length (activeQuizQuestions s)
  ∧ activeQuizQuestions s' = activeQuizQuestions s
  ∧ questionText (page s') = "Quiz Complete!"
  ∧ msgText (resultMessage (page s'))
    = finalMessage (score s') (length (activeQuizQuestions s)).
Proof.
  revert s. induction choices as [|[b o] choices IH]; intros s Hbetween Hlen.
  - simpl in Hlen. destruct Hbetween as [_ Hend].
    destruct Hend as [Htext Hmsg]; [lia|]. cbn.
    repeat apply conj; try done; lia.
  - simpl in Hlen. cbv zeta. rewrite play_cons, answerCurrent_run.
    destruct (activeQuizQuestions s !! currentQuestionIndex s) as [q|] eqn:Hq;
      [|apply lookup_ge_None in Hq; lia].
    destruct Hbetween as [Hfresh _]. specialize (Hfresh ltac:(lia)).
    destruct (checkAnswer_fresh b o (answer q) s Hfresh)
      as (_ & Hscore & Hidx & Hqs & _).
    rewrite nextQuestion_run.
    destruct (loadQuestion_session
      (set_currentQuestionIndex
         (currentQuestionIndex (exec (checkAnswer b o (answer q)) s) + 1)
         (exec (checkAnswer b o (answer q)) s))) as (Hqs2 & Hidx2 & Hscore2 & _).
    pose proof (loadQuestion_between
      (set_currentQuestionIndex
         (currentQuestionIndex (exec (checkAnswer b o (answer q)) s) + 1)
         (exec (checkAnswer b o (answer q)) s))) as Hbetween2.
    remember (exec loadQuestion
      (set_currentQuestionIndex
         (currentQuestionIndex (exec (checkAnswer b o (answer q)) s) + 1)
         (exec (checkAnswer b o (answer q)) s))) as s2 eqn:Hs2.
    clear Hs2. cbn in Hqs2, Hidx2, Hscore2.
    rewrite Hqs in Hqs2. rewrite Hidx in Hidx2. rewrite Hscore in Hscore2.
    destruct (IH s2 Hbetween2) as (IHs & IHi & IHq & IHt & IHm).
    { rewrite Hqs2, Hidx2. lia. }
    rewrite Hqs2 in IHs, IHi, IHq, IHm. rewrite Hidx2, Hscore2 in IHs.
    rewrite (drop_S _ _ _ Hq). simpl correctCount.
    replace (currentQuestionIndex s + 1) with (S (currentQuestionIndex s)) in IHs
      by lia.
    repeat apply conj; try done. rewrite IHs.
    destruct (String.eqb o (answer q)); lia.
Qed.

(** The number of right choices is at most the number of questions, and
    reaches it exactly when every choice is its question's answer. *)
Lemma correctCount_le choices qs : correctCount choices qs ≤ length qs.
Proof.
  revert qs. induction choices as [|[b o] choices IH]; intros [|q qs]; simpl;
    try lia.
  specialize (IH qs). destruct (String.eqb o (answer q)); lia.
Qed.

Lemma correctCount_all choices qs :
  length choices = length qs →
  correctCount choices qs = length qs
  ↔ Forall2 (fun choice q => choice.2 = answer q) choices qs.
Proof.
  revert qs. induction choices as [|[b o] choices IH]; intros [|q qs] Hlen;
    simplify_eq/=.
  - split; [constructor|done].
  - pose proof (correctCount_le choices qs) as Hle.
    destruct (String.eqb_spec o (answer q)) as [->|Hne].
    + split.
      * intros H. constructor; [done|]. apply IH; [done|lia].
      * intros H. inversion H as [|? ? ? ? _ Hrest]; subst.
        apply IH in Hrest; [lia|done].
    + split; [lia|]. intros H. inversion H as [|? ? ? ? Hhead _]; subst. done.
Qed.

(** ** Every order can come out of the shuffle *)

Lemma random_floor_eval n s :
  n ≠ 0 →
  eval (random_floor n) s = draws (random s) (cursor (random s)) mod n.
Proof.
  intros Hn. unfold eval, random_floor. cbn.
  by destruct (Nat.eqb_spec n 0).
Qed.

Lemma swap_app_l {A} i j (l k : list A) :
  i < length l → j < length l → swap i j (l ++ k) = swap i j l ++ k.
Proof.
  intros Hi Hj. unfold swap. rewrite !lookup_app_l by done.
  destruct (l !! i), (l !! j); try done.
  rewrite insert_app_l by done.
  by rewrite insert_app_l by (by rewrite length_insert).
Qed.

(** The loop entered at [i] leaves the entries after position [i] alone. *)
Lemma shuffle_from_app {A} i (l k : list A) s :
  i < length l →
  eval (shuffle_from i (l ++ k)) s = eval (shuffle_from i l) s ++ k.
Proof.
  revert l s. induction i as [|i IH]; intros l s Hi; [done|].
  unfold eval in *. rewrite !shuffle_from_S.
  pose proof (random_floor_lt (S i + 1) s ltac:(lia)) as Hj.
  rewrite swap_app_l by lia. apply IH. rewrite length_swap. lia.
Qed.

Lemma list_last_decompose {A} n (l : list A) x :
  length l = S n → l !! n = Some x → l = take n l ++ [x].
Proof.
  intros Hlen Hx. rewrite <- (take_drop n l) at 1. f_equal.
  rewrite (drop_S _ _ _ Hx), drop_ge by lia. done.
Qed.

(** Swapping the last position with the position of [x] puts [x] last. *)
Lemma swap_to_last {A} n j (l : list A) x :
  length l = S n → l !! j = Some x →
  ∃ l', swap n j l = l' ++ [x] ∧ length l' = n ∧ l' ++ [x] ≡ₚ l.
Proof.
  intros Hlen Hj.
  assert (swap n j l !! n = Some x) as Hlast.
  { unfold swap. destruct (l !! n) as [y|] eqn:Hn;
      [|apply lookup_ge_None in Hn; lia].
    rewrite Hj. destruct (decide (j = n)) as [->|Hne].
    - rewrite list_lookup_insert_eq by (rewrite length_insert; lia). congruence.
    - rewrite list_lookup_insert_ne by done.
      apply list_lookup_insert_eq. lia. }
  pose proof (length_swap n j l) as Hl. rewrite Hlen in Hl.
  exists (take n (swap n j l)). split; [by apply list_last_decompose|].
  split; [rewrite length_take; lia|].
  rewrite <- (list_last_decompose n (swap n j l) x Hl Hlast).
  apply swap_Permutation.
Qed.

Lemma shuffle_from_reaches {A} i (l target : list A) c :
  length l = S i → l ≡ₚ target →
  ∃ d : nat → nat, ∀ s,
    cursor (random s) = c →
    (∀ k, c ≤ k → draws (random s) k = d k) →
    eval (shuffle_from i l) s = target.
Proof.
  revert l target c. induction i as [|i IH]; intros l target c Hlen Hperm.
  - destruct l as [|x [|? ?]]; simplify_eq/=.
    apply Permutation_singleton_l in Hperm as <-.
    by exists (fun _ => 0).
  - pose proof (Permutation_length Hperm) as Htlen. rewrite Hlen in Htlen.
    destruct (target !! S i) as [x|] eqn:Hx;
      [|apply lookup_ge_None in Hx; lia].
    pose proof (list_last_decompose (S i) target x (eq_sym Htlen) Hx) as Htarget.
    assert (x ∈ l) as Hin.
    { rewrite Hperm. apply list_elem_of_lookup. eauto. }
    apply list_elem_of_lookup in Hin as [j Hj].
    pose proof (lookup_lt_Some _ _ _ Hj) as Hjlt.
    destruct (swap_to_last (S i) j l x Hlen Hj) as (l' & Hswap & Hl' & Hperm').
    assert (l' ≡ₚ take (S i) target) as Hrest.
    { apply (Permutation_app_inv_r [x]). by rewrite Hperm', <- Htarget. }
    destruct (IH l' (take (S i) target) (S c) Hl' Hrest) as [d' Hd'].
    exists (fun k => if k =? c then j else d' k). intros s Hc Hd.
    unfold eval. rewrite shuffle_from_S. fold (eval (shuffle_from i
      (swap (S i) (eval (random_floor (S i + 1)) s) l))
      (exec (random_floor (S i + 1)) s)).
    rewrite random_floor_eval by lia. rewrite Hc, (Hd c) by lia.
    rewrite Nat.eqb_refl, Nat.mod_small by lia.
    rewrite Hswap, shuffle_from_app by lia.
    rewrite Htarget at 1. f_equal. apply Hd'.
    + rewrite random_floor_state. cbn. by rewrite Hc.
    + intros k Hk. rewrite random_floor_state. cbn. rewrite Hd by lia.
      destruct (Nat.eqb_spec k c); [lia|done].
Qed.

Lemma shuffleArray_reaches {A} (array target : list A) c :
  array ≡ₚ target →
  ∃ d : nat → nat, ∀ s,
    cursor (random s) = c →
    (∀ k, c ≤ k → draws (random s) k = d k) →
    eval (shuffleArray array) s = target.
Proof.
  intros Hperm. destruct array as [|x array].
  - apply Permutation_nil_l in Hperm as <-. by exists (fun _ => 0).
  - unfold shuffleArray. cbn [length]. rewrite Nat.sub_1_r. cbn [Nat.pred].
    by apply shuffle_from_reaches.
Qed.

Lemma initQuiz_zero s :
  score (exec initQuiz s) = 0 ∧ currentQuestionIndex (exec initQuiz s) = 0.
Proof.
  rewrite initQuiz_run.
  by destruct (loadQuestion_session (initQuiz_reset s)) as (_ & -> & -> & _).
Qed.

(** * Further properties of the script *)

(** X1. [shuffleArray] keeps the length of the array, takes exactly one draw
    less than the array has entries and changes nothing else; an array of at
    most one entry comes back as it is, without a draw. *)
Theorem shuffleArray_effect {A} (array : list A) (s : State) :
  length (eval (shuffleArray array) s) = length array
  ∧ exec (shuffleArray array) s
    = set_random (mkRandom (draws (random s))
                    (length array - 1 + cursor (random s))) s
  ∧ (length array ≤ 1 → shuffleArray array s = (array, s)).
Proof.
  split; [apply shuffleArray_length|]. split; [apply shuffleArray_state|].
  intros H. unfold shuffleArray.
  by replace (length array - 1) with 0 by lia.
Qed.

(** X2. Every order of the array can come out of [shuffleArray]: for each
    rearrangement of the array there are draws under which the shuffle
    returns it. *)
Theorem shuffleArray_reaches_every_order {A} (array target : list A) (s : State) :
  array ≡ₚ target →
  ∃ d : nat → nat,
    eval (shuffleArray array) (set_random (mkRandom d (cursor (random s))) s)
    = target.
Proof.
  intros Hperm.
  destruct (shuffleArray_reaches array target (cursor (random s)) Hperm) as [d Hd].
  exists d. by apply Hd.
Qed.

(** X3. Every record of the bank can open a session: for each record there
    are draws under which a successful load makes it question 1. *)
Theorem every_record_can_come_first
    (status : nat) (quizData : list QuestionRecord) (q : QuestionRecord) (s : State) :
  q ∈ quizData →
  ∃ d : nat → nat,
    let s' := exec (loadQuestionsAndInit (Response true status (JsonBank quizData)))
                (set_random (mkRandom d (cursor (random s))) s) in
    activeQuizQuestions s' !! 0 = Some q
    ∧ questionText (page s') = "Q1: " +:+ question q.
Proof.
  intros Hq. apply elem_of_Permutation in Hq as [rest Hperm].
  destruct (shuffleArray_reaches quizData (q :: rest) (cursor (random s)) Hperm)
    as [d Hd].
  exists d. cbv zeta.
  set (s0 := set_random (mkRandom d (cursor (random s))) s).
  assert (eval (shuffleArray quizData) s0 = q :: rest) as Hsh by (by apply Hd).
  assert (activeQuizQuestions
            (exec (loadQuestionsAndInit (Response true status (JsonBank quizData))) s0)
          !! 0 = Some q) as Hfirst.
  { by rewrite load_bank_active, Hsh. }
  split; [done|].
  rewrite load_bank_run, initQuiz_run, Hsh.
  by rewrite (loadQuestion_current _ q).
Qed.

(** X4. No click changes the questions of the session or their order:
    whatever the user does (options, next, restart), the session keeps the
    questions it had. *)
Theorem actions_keep_questions (acts : list Action) (s : State) :
  activeQuizQuestions (exec (performAll acts) s) = activeQuizQuestions s.
Proof.
  revert s. induction acts as [|a acts IH]; intros s; [done|].
  by rewrite performAll_cons, IH, perform_questions.
Qed.

(** X5. After [initQuiz], whatever the user clicks, the score is at most the
    number of questions of the session; while a question is on the page it
    is at most the number of questions answered so far (the index, plus one
    if the current question is answered). *)
Theorem score_within_session (acts : list Action) (s : State) :
  let s' := exec (performAll acts) (exec initQuiz s) in
  score s' ≤ length (activeQuizQuestions s')
  ∧ (currentQuestionIndex s' < length (activeQuizQuestions s') →
     score s' ≤ currentQuestionIndex s' + (if questionAnswered s' then 1 else 0)).
Proof.
  cbv zeta.
  destruct (session_ok_performAll acts _ (session_ok_initQuiz s)) as [_ H].
  destruct (activeQuizQuestions _ !! currentQuestionIndex _) as [current|] eqn:Hq.
  - apply lookup_lt_Some in Hq. destruct H as (Hsc & _).
    split; [|done]. destruct (questionAnswered _); lia.
  - apply lookup_ge_None in Hq. destruct H as (Hsc & _). split; [done|lia].
Qed.

(** X6. After [initQuiz], whatever the user clicks, the score display shows
    the current score: it reads "Score: <score> / <n>", where <n> is the
    number of questions of the session, or 10 for a session without
    questions. *)
Theorem score_display_follows_score (acts : list Action) (s : State) :
  let s' := exec (performAll acts) (exec initQuiz s) in
  scoreDisplay (page s')
  = "Score: " +:+ show_nat (score s') +:+ " / "
      +:+ show_nat (if length (activeQuizQuestions s') =? 0
                    then QUIZ_LENGTH else length (activeQuizQuestions s')).
Proof.
  cbv zeta.
  by destruct (session_ok_performAll acts _ (session_ok_initQuiz s)) as [-> _].
Qed.

(** X7. After [initQuiz], whatever the user clicks, once the index is past
    the last question the page is the closing screen: "Quiz Complete!", no
    option buttons, the closing message for the current score shown, the
    restart button shown and the next button hidden. *)
Theorem closing_screen_when_done (acts : list Action) (s : State) :
  let s' := exec (performAll acts) (exec initQuiz s) in
  length (activeQuizQuestions s') ≤ currentQuestionIndex s' →
  questionText (page s') = "Quiz Complete!"
  ∧ optionsContainer (page s') = []
  ∧ msgText (resultMessage (page s'))
    = finalMessage (score s') (length (activeQuizQuestions s'))
  ∧ ("hidden" ∉ msgClasses (resultMessage (page s')))
  ∧ ("hidden" ∉ restartButton (page s'))
  ∧ "hidden" ∈ nextButton (page s').
Proof.
  cbv zeta. intros Hdone.
  destruct (session_ok_performAll acts _ (session_ok_initQuiz s)) as [_ H].
  apply lookup_ge_None in Hdone. rewrite Hdone in H.
  by destruct H as (_ & ? & ? & ? & ? & ? & ?).
Qed.

(** X8. After [initQuiz], whatever the user clicks, while a question is
    current the page shows that question: its numbered text, and one button
    per option, in some order, each submitting its own text against the
    question's answer.  The buttons are disabled, the next button is shown
    and the feedback is shown exactly when the question has been answered;
    the restart button is hidden. *)
Theorem question_screen_in_progress
    (acts : list Action) (s : State) (current : QuestionRecord) :
  let s' := exec (performAll acts) (exec initQuiz s) in
  activeQuizQuestions s' !! currentQuestionIndex s' = Some current →
  questionText (page s')
  = "Q" +:+ show_nat (currentQuestionIndex s' + 1) +:+ ": " +:+ question current
  ∧ btnText <$> optionsContainer (page s') ≡ₚ options current
  ∧ Forall (fun b => btnDisabled b = questionAnswered s'
                     ∧ onclickOption b = btnText b
                     ∧ onclickAnswer b = answer current)
           (optionsContainer (page s'))
  ∧ ("hidden" ∈ nextButton (page s') ↔ questionAnswered s' = false)
  ∧ ("hidden" ∈ msgClasses (resultMessage (page s'))
     ↔ questionAnswered s' = false)
  ∧ "hidden" ∈ restartButton (page s').
Proof.
  cbv zeta. intros Hq.
  destruct (session_ok_performAll acts _ (session_ok_initQuiz s)) as [_ H].
  rewrite Hq in H.
  destruct H as (_ & Hre & Hnext & Hmsg & Htext & Hbuttons & Hperm).
  split; [done|]. split; [done|]. split; [|done].
  eapply Forall_impl; [exact Hbuttons|]. cbn. intros b (_ & ? & ? & ?). done.
Qed.

(** X9. A session played through, one answer per question and "next" after
    each: the final score is the number of chosen texts that equal their
    question's answer, the index is the number of questions, the closing
    screen shows the message for that score, and this message is the
    perfect-score text exactly when every choice was right. *)
Theorem play_counts_right_answers (choices : list (nat * string)) (s : State) :
  length choices = length (activeQuizQuestions s) →
  let s' := exec (play choices) (exec initQuiz s) in
  score s' = correctCount choices (activeQuizQuestions s)
  ∧ currentQuestionIndex s' = length (activeQuizQuestions s)
  ∧ questionText (page s') = "Quiz Complete!"
  ∧ msgText (resultMessage (page s'))
    = finalMessage (score s') (length (activeQuizQuestions s))
  ∧ (msgText (resultMessage (page s')) = perfectMessage
     ↔ Forall2 (fun choice q => choice.2 = answer q)
         choices (activeQuizQuestions s)).
Proof.
  intros Hlen. cbv zeta.
  destruct (initQuiz_zero s) as [Hscore Hidx].
  assert (activeQuizQuestions (exec initQuiz s) = activeQuizQuestions s) as Hqs.
  { rewrite initQuiz_run.
    by destruct (loadQuestion_session (initQuiz_reset s)) as [-> _]. }
  assert (between_questions (exec initQuiz s)) as Hbetween.
  { rewrite initQuiz_run. apply loadQuestion_between. }
  destruct (play_from choices (exec initQuiz s) Hbetween)
    as (Hs & Hi & _ & Ht & Hm).
  { rewrite Hidx, Hqs. done. }
  rewrite Hscore, Hidx, Hqs in Hs. rewrite Hqs in Hi, Hm.
  change (drop 0 (activeQuizQuestions s)) with (activeQuizQuestions s) in Hs.
  split; [done|]. split; [done|]. split; [done|]. split; [done|].
  rewrite Hm, finalMessage_perfect, Hs. by apply correctCount_all.
Qed.

(** X10. After a right answer on a question without an answer yet, the
    message shown is the one of [correctMessages] at the index the draw
    gives, with nothing added, and it is not hidden. *)
Theorem checkAnswer_correct_feedback
    (selectedButton : nat) (correctAnswer : string) (s : State) :
  questionAnswered s = false →
  let s' := exec (checkAnswer selectedButton correctAnswer correctAnswer) s in
  correctMessages !! eval (random_floor (length correctMessages)) s
  = Some (msgText (resultMessage (page s')))
  ∧ ("hidden" ∉ msgClasses (resultMessage (page s'))).
Proof.
  intros Hfresh. cbv zeta.
  destruct (checkAnswer_fresh selectedButton correctAnswer correctAnswer s Hfresh)
    as (_ & _ & _ & _ & Hmsg & _).
  destruct (checkAnswer_fresh_page selectedButton correctAnswer correctAnswer s Hfresh)
    as (_ & _ & _ & _ & _ & Hcl & _).
  cbv zeta in Hcl. rewrite String.eqb_refl in Hmsg, Hcl. rewrite Hmsg, Hcl.
  split.
  - pose proof (random_floor_lt (length correctMessages) s ltac:(done)) as Hk.
    generalize dependent (eval (random_floor (length correctMessages)) s).
    intros k _ Hk. do 5 (destruct k as [|k]; [done|]). cbn in Hk. lia.
  - apply hidden_after_message. by apply hidden_not_colour.
Qed.

(** X11. A successful load starts the session at score 0 and index 0 with
    at most ten questions, and the score display reads "Score: 0 / <n>" with
    <n> the smaller of 10 and the size of the bank, or 10 for an empty
    bank. *)
Theorem load_starts_session
    (status : nat) (quizData : list QuestionRecord) (s : State) :
  let s' := exec (loadQuestionsAndInit (Response true status (JsonBank quizData))) s in
  score s' = 0
  ∧ currentQuestionIndex s' = 0
  ∧ length (activeQuizQuestions s') = min QUIZ_LENGTH (length quizData)
  ∧ scoreDisplay (page s')
    = "Score: 0 / "
        +:+ show_nat (if length quizData =? 0 then QUIZ_LENGTH
                      else min QUIZ_LENGTH (length quizData)).
Proof.
  cbv zeta.
  assert (length (activeQuizQuestions
            (exec (loadQuestionsAndInit (Response true status (JsonBank quizData))) s))
          = min QUIZ_LENGTH (length quizData)) as Hlen.
  { by rewrite load_bank_active, length_take, shuffleArray_length. }
  rewrite Hlen. rewrite load_bank_run.
  match goal with |- context [exec initQuiz ?t] =>
    destruct (initQuiz_zero t) as [Hscore Hidx];
    destruct (session_ok_initQuiz t) as [Hdisp _]
  end.
  rewrite load_bank_run in Hlen.
  rewrite Hdisp, Hscore, Hidx, Hlen.
  split; [done|]. split; [done|]. split; [done|].
  unfold scoreText. destruct quizData as [|q rest]; [reflexivity|].
  unfold QUIZ_LENGTH. simpl Nat.min. reflexivity.
Qed.

(** * The further properties on the worked sessions *)

(** The four options of the fish question, brought into another order. *)
Lemma shuffleArray_reaches_every_order_witness :
  options qFish ≡ₚ ["pike"; "catfish"; "trout"; "sturgeon"]
  ∧ ∃ d : nat → nat,
      eval (shuffleArray (options qFish))
        (set_random (mkRandom d (cursor (random startState))) startState)
      = ["pike"; "catfish"; "trout"; "sturgeon"].
Proof.
  assert (options qFish ≡ₚ ["pike"; "catfish"; "trout"; "sturgeon"]) as H.
  { transitivity ("pike" :: ["catfish"; "sturgeon"; "trout"]).
    - symmetry. apply (Permutation_cons_append ["catfish"; "sturgeon"; "trout"]).
    - apply perm_skip, perm_skip, perm_swap. }
  split; [exact H|].
  exact (shuffleArray_reaches_every_order (options qFish)
           ["pike"; "catfish"; "trout"; "sturgeon"] startState H).
Defined.

(** With the draws 1, 2, 0 the shuffle gives that order. *)
Example shuffleArray_reaches_run :
  eval (shuffleArray (options qFish))
    (set_random (mkRandom (fun k => nth k [1; 2; 0] 0) 0) startState)
  = ["pike"; "catfish"; "trout"; "sturgeon"].
Proof. run_session. Qed.

(** The NDVI question, last in the bank, as question 1. *)
Lemma every_record_can_come_first_witness :
  qNdvi ∈ smallBank
  ∧ ∃ d : nat → nat,
      let s' := exec (loadQuestionsAndInit (Response true 200 (JsonBank smallBank)))
                  (set_random (mkRandom d (cursor (random startState))) startState) in
      activeQuizQuestions s' !! 0 = Some qNdvi
      ∧ questionText (page s') = "Q1: " +:+ question qNdvi.
Proof.
  assert (qNdvi ∈ smallBank) as H.
  { unfold smallBank. apply elem_of_cons. right. apply elem_of_cons. right.
    apply elem_of_cons. by left. }
  split; [exact H|].
  exact (every_record_can_come_first 200 smallBank qNdvi startState H).
Defined.

(** The session of three restarted and clicked through to its end. *)
Lemma closing_screen_when_done_witness :
  length (activeQuizQuestions
    (exec (performAll [ClickOption 0; ClickNext; ClickOption 0; ClickNext;
                       ClickOption 0; ClickNext])
       (exec initQuiz loadedState)))
  ≤ currentQuestionIndex
      (exec (performAll [ClickOption 0; ClickNext; ClickOption 0; ClickNext;
                         ClickOption 0; ClickNext])
         (exec initQuiz loadedState))
  ∧ questionText (page
      (exec (performAll [ClickOption 0; ClickNext; ClickOption 0; ClickNext;
                         ClickOption 0; ClickNext])
         (exec initQuiz loadedState)))
    = "Quiz Complete!".
Proof.
  assert (length (activeQuizQuestions
            (exec (performAll [ClickOption 0; ClickNext; ClickOption 0; ClickNext;
                               ClickOption 0; ClickNext])
               (exec initQuiz loadedState)))
          ≤ currentQuestionIndex
              (exec (performAll [ClickOption 0; ClickNext; ClickOption 0; ClickNext;
                                 ClickOption 0; ClickNext])
                 (exec initQuiz loadedState))) as H by (vm_compute; lia).
  split; [exact H|].
  exact (proj1 (closing_screen_when_done
    [ClickOption 0; ClickNext; ClickOption 0; ClickNext; ClickOption 0; ClickNext]
    loadedState H)).
Defined.

(** The datum question after a restart and one click. *)
Lemma question_screen_in_progress_witness :
  activeQuizQuestions (exec (performAll [ClickOption 0]) (exec initQuiz loadedState))
    !! currentQuestionIndex
         (exec (performAll [ClickOption 0]) (exec initQuiz loadedState))
  = Some qDatum
  ∧ btnText <$> optionsContainer (page
      (exec (performAll [ClickOption 0]) (exec initQuiz loadedState)))
    ≡ₚ options qDatum.
Proof.
  assert (activeQuizQuestions
            (exec (performAll [ClickOption 0]) (exec initQuiz loadedState))
            !! currentQuestionIndex
                 (exec (performAll [ClickOption 0]) (exec initQuiz loadedState))
          = Some qDatum) as H by (vm_compute; reflexivity).
  split; [exact H|].
  exact (proj1 (proj2 (question_screen_in_progress [ClickOption 0] loadedState
                         qDatum H))).
Defined.

Example question_screen_in_progress_run :
  questionAnswered (exec (performAll [ClickOption 0]) (exec initQuiz loadedState))
  = true
  ∧ btnDisabled <$> optionsContainer (page
      (exec (performAll [ClickOption 0]) (exec initQuiz loadedState)))
    = [true; true]
  ∧ nextButton (page
      (exec (performAll [ClickOption 0]) (exec initQuiz loadedState))) = [].
Proof. run_session. Qed.

(** Three choices for the three questions, the second one wrong. *)
Lemma play_counts_right_answers_witness :
  length [(0, "WGS84"); (1, "Elevation"); (0, "sturgeon")]
  = length (activeQuizQuestions loadedState)
  ∧ score (exec (play [(0, "WGS84"); (1, "Elevation"); (0, "sturgeon")])
             (exec initQuiz loadedState))
    = correctCount [(0, "WGS84"); (1, "Elevation"); (0, "sturgeon")]
        (activeQuizQuestions loadedState).
Proof.
  assert (length [(0, "WGS84"); (1, "Elevation"); (0, "sturgeon")]
          = length (activeQuizQuestions loadedState)) as H
    by (vm_compute; reflexivity).
  split; [exact H|].
  exact (proj1 (play_counts_right_answers
    [(0, "WGS84"); (1, "Elevation"); (0, "sturgeon")] loadedState H)).
Defined.

Example play_counts_right_answers_run :
  score (exec (play [(0, "WGS84"); (1, "Elevation"); (0, "sturgeon")])
           (exec initQuiz loadedState)) = 2
  ∧ msgText (resultMessage (page
      (exec (play [(0, "WGS84"); (1, "Elevation"); (0, "sturgeon")])
         (exec initQuiz loadedState))))
    = "You scored 2 out of 3. Keep learning about our world!".
Proof. run_session. Qed.

(** The datum question answered rightly. *)
Lemma checkAnswer_correct_feedback_witness :
  questionAnswered loadedState = false
  ∧ correctMessages !! eval (random_floor (length correctMessages)) loadedState
    = Some (msgText (resultMessage (page
        (exec (checkAnswer 1 "WGS84" "WGS84") loadedState)))).
Proof.
  assert (questionAnswered loadedState = false) as H by (vm_compute; reflexivity).
  split; [exact H|].
  exact (proj1 (checkAnswer_correct_feedback 1 "WGS84" loadedState H)).
Defined.

Example checkAnswer_correct_feedback_run :
  msgText (resultMessage (page (exec (checkAnswer 1 "WGS84" "WGS84") loadedState)))
  = "Mission success!".
Proof. run_session. Qed.

(** ** Colours *)

(** Decides whether a class is in a closed class list. *)
Ltac decide_class := refine (bool_decide_unpack _ _); vm_compute; exact I.

(** The classes of an option button made by [loadQuestion], once its
    question is answered: green exactly when its text is the answer, and red
    exactly when it is the clicked button and its text is not the answer. *)
Lemma answered_option_colours (selected : bool) correctAnswer option :
  let b1 := ifOptionButton (highlightButton correctAnswer)
              (ifOptionButton disableButton
                 (makeOptionButton correctAnswer option)) in
  let b2 := if selected
            then markSelected (String.eqb option correctAnswer) b1 else b1 in
  ("bg-emerald-600" ∈ btnClasses b2 ↔ option = correctAnswer)
  ∧ ("bg-red-600" ∈ btnClasses b2 ↔ selected = true ∧ option ≠ correctAnswer)
  ∧ ("bg-gray-600" ∈ btnClasses b2
     ↔ option ≠ correctAnswer ∧ selected = false).
Proof.
  cbv zeta.
  assert (ifOptionButton disableButton (makeOptionButton correctAnswer option)
          = disableButton (makeOptionButton correctAnswer option)) as ->.
  { unfold ifOptionButton. case_decide as H; [done|]. exfalso. apply H.
    apply optionButtonClasses_option_button. }
  assert (ifOptionButton (highlightButton correctAnswer)
            (disableButton (makeOptionButton correctAnswer option))
          = highlightButton correctAnswer
              (disableButton (makeOptionButton correctAnswer option))) as ->.
  { unfold ifOptionButton. case_decide as H; [done|]. exfalso. apply H.
    decide_class. }
  unfold highlightButton, markSelected.
  change (btnText (disableButton (makeOptionButton correctAnswer option)))
    with option.
  destruct (String.eqb_spec option correctAnswer) as [->|Hne], selected;
    (split; [|split]); split;
    try (intros _; repeat split; try done; decide_class);
    try (intros [? ?]; done);
    try (intros H; exfalso; revert H; decide_class);
    try (intros ?; congruence).
Qed.

(** X12. A question loaded and one of its buttons clicked: exactly the
    buttons whose text is the answer turn green, the clicked button turns red
    exactly when its text is not the answer, and exactly the other wrong
    options stay gray. *)
Theorem answered_buttons_are_coloured
    (k : nat) (s : State) (current : QuestionRecord) :
  activeQuizQuestions s !! currentQuestionIndex s = Some current →
  k < length (options current) →
  let s' := exec (loadQuestion ;; clickOption k) s in
  ∀ i b, optionsContainer (page s') !! i = Some b →
    ("bg-emerald-600" ∈ btnClasses b ↔ btnText b = answer current)
    ∧ ("bg-red-600" ∈ btnClasses b ↔ i = k ∧ btnText b ≠ answer current)
    ∧ ("bg-gray-600" ∈ btnClasses b ↔ btnText b ≠ answer current ∧ i ≠ k).
Proof.
  intros Hq Hk. cbv zeta. rewrite exec_bind.
  pose proof (loadQuestion_current _ _ Hq) as Hload.
  remember (exec loadQuestion s) as s1 eqn:Hs1. clear Hs1.
  assert (optionsContainer (page s1)
          = makeOptionButton (answer current)
              <$> eval (shuffleArray (options current)) s) as Hbuttons
    by (by rewrite Hload).
  assert (questionAnswered s1 = false) as Hfresh by (by rewrite Hload).
  clear Hload.
  destruct (eval (shuffleArray (options current)) s !! k) as [ok|] eqn:Hok;
    [|apply lookup_ge_None in Hok; rewrite shuffleArray_length in Hok; lia].
  rewrite clickOption_run, Hbuttons, list_lookup_fmap, Hok.
  cbn [fmap option_fmap option_map].
  change (onclickOption (makeOptionButton (answer current) ok)) with ok.
  change (onclickAnswer (makeOptionButton (answer current) ok))
    with (answer current).
  destruct (checkAnswer_fresh_page k ok (answer current) s1 Hfresh)
    as (_ & _ & -> & _).
  rewrite Hbuttons. intros i b Hb.
  rewrite list_lookup_alter, !list_lookup_fmap in Hb.
  assert (∃ oi, eval (shuffleArray (options current)) s !! i = Some oi
                ∧ b = (if bool_decide (k = i)
                       then markSelected (String.eqb oi (answer current))
                       else id)
                        (ifOptionButton (highlightButton (answer current))
                           (ifOptionButton disableButton
                              (makeOptionButton (answer current) oi))))
    as (oi & Hoi & ->).
  { case_decide as Hik.
    - subst i. rewrite Hok in Hb. cbn [fmap option_fmap option_map] in Hb.
      exists ok. rewrite bool_decide_eq_true_2 by done. split; congruence.
    - destruct (eval (shuffleArray (options current)) s !! i) as [oi|];
        [|discriminate Hb].
      cbn [fmap option_fmap option_map] in Hb.
      exists oi. rewrite bool_decide_eq_false_2 by done.
      split; [reflexivity|]. unfold id. congruence. }
  pose proof (answered_button (String.eqb oi (answer current))
    (bool_decide (k = i)) (answer current)
    (makeOptionButton (answer current) oi) optionButtonClasses_option_button)
    as (Htext & _).
  pose proof (answered_option_colours (bool_decide (k = i)) (answer current) oi)
    as (Hgreen & Hred & Hgray).
  cbv zeta in Htext, Hgreen, Hred, Hgray. cbn [btnText makeOptionButton] in Htext.
  destruct (bool_decide_reflect (k = i)) as [Hik|Hik]; cbn [id];
    rewrite Htext, Hgreen, Hred, Hgray.
  - split; [reflexivity|]. split; split.
    + intros [_ ?]. split; [congruence|assumption].
    + intros [_ ?]. split; [reflexivity|assumption].
    + intros [_ ?]. discriminate.
    + intros [_ ?]. congruence.
  - split; [reflexivity|]. split; split.
    + intros [? _]. discriminate.
    + intros [? _]. congruence.
    + intros [? _]. split; [assumption|congruence].
    + intros [? _]. split; [assumption|reflexivity].
Qed.

Lemma shown_palette_class t tokens (cl : ClassList) :
  t ∈ messagePalette →
  t ∈ classList_add tokens (classList_remove messagePalette cl) ↔ t ∈ tokens.
Proof.
  intros Ht. rewrite elem_of_classList_add, elem_of_classList_remove. tauto.
Qed.

Lemma shown_other_class t tokens (cl : ClassList) :
  t ∈ cl → t ∉ messagePalette →
  t ∈ classList_add tokens (classList_remove messagePalette cl).
Proof.
  intros Ht Hn. rewrite elem_of_classList_add, elem_of_classList_remove. tauto.
Qed.

(** A class outside the palette, once on the message box, stays there. *)
Lemma loadQuestion_keeps_class t s :
  t ∉ messagePalette →
  t ∈ msgClasses (resultMessage (page s)) →
  t ∈ msgClasses (resultMessage (page (exec loadQuestion s))).
Proof.
  intros Hn Ht. destruct (loadQuestion_cases s) as [[_ ->]|[current H]].
  - rewrite showResults_run. cbn. by apply shown_other_class.
  - rewrite (loadQuestion_current _ _ H). cbn. apply elem_of_classList_add. by left.
Qed.

Lemma perform_keeps_class t a s :
  t ∉ messagePalette →
  t ∈ msgClasses (resultMessage (page s)) →
  t ∈ msgClasses (resultMessage (page (exec (perform a) s))).
Proof.
  intros Hn Ht. destruct a as [k| |]; simpl perform.
  - destruct (clickOption_cases k s) as [->|(b & _ & Ha & ->)]; [done|].
    destruct (checkAnswer_fresh_page k (onclickOption b) (onclickAnswer b) s Ha)
      as (_ & _ & _ & _ & _ & -> & _).
    by apply shown_other_class.
  - rewrite nextQuestion_run. by apply loadQuestion_keeps_class.
  - rewrite initQuiz_run. apply loadQuestion_keeps_class; [done|]. cbn.
    apply elem_of_classList_add. by left.
Qed.

Lemma performAll_keeps_class t acts s :
  t ∉ messagePalette →
  t ∈ msgClasses (resultMessage (page s)) →
  t ∈ msgClasses (resultMessage (page (exec (performAll acts) s))).
Proof.
  intros Hn. revert s. induction acts as [|a acts IH]; intros s Ht; [done|].
  rewrite performAll_cons. by apply IH, perform_keeps_class.
Qed.

(** X13. The colour of the feedback follows the outcome, whatever classes the
    message box had: after an answer on a fresh question it carries the two
    emerald classes exactly when the chosen text is the answer and the two
    red classes exactly when it is not, and it is neither yellow nor
    hidden. *)
Theorem feedback_colour_follows_outcome
    (selectedButton : nat) (selectedOption correctAnswer : string) (s : State) :
  questionAnswered s = false →
  let cl := msgClasses (resultMessage (page
    (exec (checkAnswer selectedButton selectedOption correctAnswer) s))) in
  ("bg-emerald-900/50" ∈ cl ↔ selectedOption = correctAnswer)
  ∧ ("text-emerald-300" ∈ cl ↔ selectedOption = correctAnswer)
  ∧ ("bg-red-900/50" ∈ cl ↔ selectedOption ≠ correctAnswer)
  ∧ ("text-red-300" ∈ cl ↔ selectedOption ≠ correctAnswer)
  ∧ ("bg-yellow-900/50" ∉ cl) ∧ ("text-yellow-300" ∉ cl) ∧ ("hidden" ∉ cl).
Proof.
  intros Hfresh. cbv zeta.
  destruct (checkAnswer_fresh_page selectedButton selectedOption correctAnswer s Hfresh)
    as (_ & _ & _ & _ & _ & -> & _).
  cbv zeta. fold messagePalette.
  rewrite !shown_palette_class by decide_class.
  destruct (String.eqb_spec selectedOption correctAnswer) as [->|Hne];
    repeat apply conj; try (intros _; done); try (intros _; decide_class);
    try (intros H; exfalso; revert H; decide_class); try decide_class;
    try (intros ?; congruence).
Qed.

(** X14. The closing message's indigo classes are never taken off again:
    they are not among the classes [showMessage] removes, so once the closing
    screen has been shown the message box carries them whatever the user
    does next, also under the feedback of a restarted session. *)
Theorem indigo_classes_stay (acts : list Action) (s : State) :
  let s' := exec (performAll acts) (exec showResults s) in
  "bg-indigo-900/50" ∈ msgClasses (resultMessage (page s'))
  ∧ "text-indigo-300" ∈ msgClasses (resultMessage (page s')).
Proof.
  cbv zeta. split; (apply performAll_keeps_class; [decide_class|]);
    rewrite showResults_run; cbn; apply elem_of_classList_add; right; decide_class.
Qed.

(** The fish question loaded and its first button, a wrong one, clicked. *)
Lemma answered_buttons_are_coloured_witness :
  activeQuizQuestions fishState !! currentQuestionIndex fishState = Some qFish
  ∧ 1 < length (options qFish)
  ∧ ∀ i b,
      optionsContainer (page (exec (loadQuestion ;; clickOption 1) fishState)) !! i
      = Some b →
      ("bg-emerald-600" ∈ btnClasses b ↔ btnText b = answer qFish)
      ∧ ("bg-red-600" ∈ btnClasses b ↔ i = 1 ∧ btnText b ≠ answer qFish)
      ∧ ("bg-gray-600" ∈ btnClasses b ↔ btnText b ≠ answer qFish ∧ i ≠ 1).
Proof.
  assert (activeQuizQuestions fishState !! currentQuestionIndex fishState
          = Some qFish) as H by (vm_compute; reflexivity).
  assert (1 < length (options qFish)) as Hk by (vm_compute; lia).
  split; [exact H|]. split; [exact Hk|].
  exact (answered_buttons_are_coloured 1 fishState qFish H Hk).
Defined.

(** The datum question answered wrongly: red feedback. *)
Lemma feedback_colour_follows_outcome_witness :
  questionAnswered loadedState = false
  ∧ ("bg-red-900/50"
     ∈ msgClasses (resultMessage (page
         (exec (checkAnswer 0 "NAD27" "WGS84") loadedState)))
     ↔ "NAD27" ≠ "WGS84").
Proof.
  assert (questionAnswered loadedState = false) as H by (vm_compute; reflexivity).
  split; [exact H|].
  exact (proj1 (proj2 (proj2
    (feedback_colour_follows_outcome 0 "NAD27" "WGS84" loadedState H)))).
Defined.

(** The finished session restarted and answered rightly: the feedback is
    emerald and still indigo. *)
Example indigo_classes_stay_run :
  msgClasses (resultMessage (page
    (exec (performAll [ClickRestart; ClickOption 0]) finishedState)))
  = ["bg-indigo-900/50"; "text-indigo-300"; "bg-emerald-900/50";
     "text-emerald-300"].
Proof. run_session. Qed.
